(** * The next-intl AST analyzer (src/analyzers/ast-analyzer.ts)

    A shallow embedding of the constant folder [foldConstant], the namespace
    resolver [resolveNamespaceFromCall] and the two discovery passes
    [analyzeUseTranslations] and [analyzeTranslationUsages], together with the
    part of Babel's syntax tree, scope chain and traversal the analyzer reads. *)

From Equations Require Import Equations.
From stdpp Require Import base option list strings gmap pretty.
From Stdlib Require Import Arith Lia.
From Stdlib Require Import Ascii.

Set Default Proof Using "Type".
Set Warnings "-register-all".
Open Scope string_scope.
Open Scope list_scope.

(** ** Syntax tree *)

(** [node.start], [node.end] and [node.loc.start.line]. *)
Record Loc := mkLoc { start : nat; end_ : nat; line : nat }.

(** [declaration.kind] *)
Inductive VarKind := V_var | V_let | V_const.

(** The node kinds of the Babel AST that the analyzer or the scope builder
    distinguishes.  [OtherScope] stands for the remaining kinds that open a
    block scope and have no parameters (the loops, static blocks and module
    blocks); [OtherNode] stands for the kinds that open no scope and declare
    no name (the other statements and expressions, JSX, type annotations).
    The analyzer has no rule for either and the traversal only descends
    through them.  Classes, [switch] statements, type-only imports and the
    declarations of TypeScript that introduce a name (types, enums,
    namespaces) are not part of the embedded trees. *)
Inductive node : Type :=
| Program (loc : Loc) (body : list node)
| ImportDeclaration (loc : Loc) (specifiers : list node) (source : string)
| ImportSpecifier (loc : Loc) (imported : node) (local_ : node)
| ImportDefaultSpecifier (loc : Loc) (local_ : node)
| ExportNamedDeclaration (loc : Loc) (declaration : option node)
| VariableDeclaration (loc : Loc) (kind : VarKind) (declarations : list node)
| VariableDeclarator (loc : Loc) (id : node) (init : option node)
| FunctionDeclaration (loc : Loc) (id : node) (params : list node) (body : node)
| ArrowFunctionExpression (loc : Loc) (params : list node) (body : node)
| BlockStatement (loc : Loc) (body : list node)
| ExpressionStatement (loc : Loc) (expression : node)
| ReturnStatement (loc : Loc) (argument : option node)
| Identifier (loc : Loc) (name : string)
| StringLiteral (loc : Loc) (value : string)
| TemplateLiteral (loc : Loc) (quasis : list (option string)) (expressions : list node)
| ArrayExpression (loc : Loc) (elements : list (option node))
| ObjectExpression (loc : Loc) (properties : list node)
| ObjectProperty (loc : Loc) (key : node) (value : node)
| BinaryExpression (loc : Loc) (operator : string) (left : node) (right : node)
| CallExpression (loc : Loc) (callee : node) (arguments : list node)
| MemberExpression (loc : Loc) (object : node) (property : node)
| AwaitExpression (loc : Loc) (argument : node)
| TSAsExpression (loc : Loc) (expression : node)
| TSTypeAssertion (loc : Loc) (expression : node)
| TSNonNullExpression (loc : Loc) (expression : node)
| TSSatisfiesExpression (loc : Loc) (expression : node)
| ImportNamespaceSpecifier (loc : Loc) (local_ : node)
| FunctionExpression (loc : Loc) (id : option node) (params : list node) (body : node)
| ObjectMethod (loc : Loc) (key : node) (params : list node) (body : node)
| CatchClause (loc : Loc) (param : option node) (body : node)
| ObjectPattern (loc : Loc) (properties : list node)
| ArrayPattern (loc : Loc) (elements : list (option node))
| AssignmentPattern (loc : Loc) (left : node) (right : node)
| RestElement (loc : Loc) (argument : node)
| OtherScope (loc : Loc) (children : list node)
| OtherNode (loc : Loc) (children : list node).

Definition node_loc (n : node) : Loc :=
  match n with
  | Program l _ | ImportDeclaration l _ _ | ImportSpecifier l _ _
  | ImportDefaultSpecifier l _ | ExportNamedDeclaration l _
  | VariableDeclaration l _ _ | VariableDeclarator l _ _
  | FunctionDeclaration l _ _ _ | ArrowFunctionExpression l _ _
  | BlockStatement l _ | ExpressionStatement l _ | ReturnStatement l _
  | Identifier l _ | StringLiteral l _ | TemplateLiteral l _ _
  | ArrayExpression l _ | ObjectExpression l _ | ObjectProperty l _ _
  | BinaryExpression l _ _ _ | CallExpression l _ _ | MemberExpression l _ _
  | AwaitExpression l _ | TSAsExpression l _ | TSTypeAssertion l _
  | TSNonNullExpression l _ | TSSatisfiesExpression l _
  | ImportNamespaceSpecifier l _ | FunctionExpression l _ _ _ | ObjectMethod l _ _ _
  | CatchClause l _ _ | ObjectPattern l _ | ArrayPattern l _
  | AssignmentPattern l _ _ | RestElement l _ | OtherScope l _ | OtherNode l _ => l
  end.

(** Property reads that the analyzer performs without first testing the node
    type; a property the node kind does not have reads as [undefined]. *)

(** [n.name] *)
Definition name_of (n : node) : option string :=
  match n with Identifier _ x => Some x | _ => None end.

(** [n.property] *)
Definition property_of (n : node) : option node :=
  match n with MemberExpression _ _ p => Some p | _ => None end.

(** [n.init] *)
Definition init_of (n : node) : option node :=
  match n with VariableDeclarator _ _ i => i | _ => None end.

(** JavaScript truthiness of a string that may be [undefined] or [null]. *)
Definition truthy (s : option string) : bool :=
  match s with Some s => negb (String.eqb s "") | None => false end.

(** [s || ''] *)
Definition or_empty (s : option string) : string :=
  if truthy s then default "" s else "".

(** ** Paths, bindings and scopes *)

(** A position in the tree: a node and the chain of its ancestors
    ([path.node], [path.parentPath]). *)
Inductive TreePath := mkTreePath { tp_node : node; tp_parent : option TreePath }.

Inductive BindingKind :=
  K_var | K_let | K_const | K_module | K_hoisted | K_param | K_local.

#[global] Instance BindingKind_eq_dec : EqDecision BindingKind.
Proof. solve_decision. Defined.

Definition kind_of_var (k : VarKind) : BindingKind :=
  match k with V_var => K_var | V_let => K_let | V_const => K_const end.

(** What a scope records for a name: the binding kind and the declaring path. *)
Record Declaration := mkDeclaration { decl_kind : BindingKind; decl_path : TreePath }.

(** [scope.bindings] of one scope, and a scope with its chain of parents,
    innermost first.  The empty chain is the scope whose [getBinding] finds
    nothing. *)
Definition Scope := list (gmap string Declaration).

(** A traversal path: position and scope ([path.scope]). *)
Record NodePath := mkNodePath {
  path_node : node;
  path_parent : option TreePath;
  path_scope : Scope }.

Record Binding := mkBinding { binding_kind : BindingKind; binding_path : NodePath }.

Definition isImportSpecifier (n : node) : bool :=
  match n with ImportSpecifier _ _ _ => true | _ => false end.
Definition isVariableDeclarator (n : node) : bool :=
  match n with VariableDeclarator _ _ _ => true | _ => false end.
Definition isCallExpression (n : node) : bool :=
  match n with CallExpression _ _ _ => true | _ => false end.
Definition isExportNamedDeclaration (n : node) : bool :=
  match n with ExportNamedDeclaration _ _ => true | _ => false end.
Definition isPattern (n : node) : bool :=
  match n with
  | ObjectPattern _ _ | ArrayPattern _ _ | AssignmentPattern _ _ _ => true
  | _ => false
  end.

(** *** Scope construction *)

(** The names a declarator id or a parameter binds
    ([getBindingIdentifiers]): the identifier itself, or the identifiers at
    the binding positions of a pattern. *)
Fixpoint bindingIdentifiers (n : node) : list string :=
  match n with
  | Identifier _ x => [x]
  | ObjectPattern _ properties => flat_map bindingIdentifiers properties
  | ObjectProperty _ _ value => bindingIdentifiers value
  | ArrayPattern _ elements =>
      flat_map (fun el => match el with Some el => bindingIdentifiers el | None => [] end)
        elements
  | AssignmentPattern _ target _ => bindingIdentifiers target
  | RestElement _ argument => bindingIdentifiers argument
  | _ => []
  end.

(** Bindings introduced by the declarators of a [VariableDeclaration]: every
    name of a declarator is bound to the declarator's path. *)
Definition declaratorEntries (declaration : TreePath) : list (string * Declaration) :=
  match tp_node declaration with
  | VariableDeclaration _ k ds =>
      flat_map (fun d =>
                  match d with
                  | VariableDeclarator _ id _ =>
                      (fun x => (x, mkDeclaration (kind_of_var k)
                                      (mkTreePath d (Some declaration))))
                      <$> bindingIdentifiers id
                  | _ => []
                  end) ds
  | _ => []
  end.

Definition specifierEntries (declaration : TreePath) (spec : node)
  : option (string * Declaration) :=
  match spec with
  | ImportSpecifier _ _ (Identifier _ x)
  | ImportDefaultSpecifier _ (Identifier _ x)
  | ImportNamespaceSpecifier _ (Identifier _ x) =>
      Some (x, mkDeclaration K_module (mkTreePath spec (Some declaration)))
  | _ => None
  end.

(** The bindings that [n], a node below a scope, registers in that scope, in
    traversal order.  [lexical] says that the block-scoped declarations
    ([let], [const], functions, imports) count: they do until a nested block
    scope is entered.  [vars] says that the [var] declarations count: they do
    in the scope of a function or of the program, and are collected through
    nested block scopes.  No declaration is collected across a function. *)
Fixpoint declared (lexical vars : bool) (parent : TreePath) (n : node) {struct n}
  : list (string * Declaration) :=
  let here := mkTreePath n (Some parent) in
  match n with
  | VariableDeclaration _ k _ =>
      if match k with V_var => vars | _ => lexical end
      then declaratorEntries here else []
  | FunctionDeclaration _ (Identifier _ f) _ _ =>
      if lexical then [(f, mkDeclaration K_hoisted here)] else []
  | ImportDeclaration _ specs _ =>
      if lexical then omap (specifierEntries here) specs else []
  | ExportNamedDeclaration _ (Some d) => declared lexical vars here d
  | BlockStatement _ body | OtherScope _ body =>
      if vars then flat_map (declared false true here) body else []
  | CatchClause _ _ body => if vars then declared false true here body else []
  | OtherNode _ children => flat_map (declared lexical vars here) children
  | _ => []
  end.

Definition paramEntries (fn : TreePath) (params : list node) : list (string * Declaration) :=
  flat_map (fun p =>
              (fun x => (x, mkDeclaration K_param (mkTreePath p (Some fn))))
              <$> bindingIdentifiers p) params.

(** The own name of a function expression. *)
Definition localEntries (fn : TreePath) : list (string * Declaration) :=
  match tp_node fn with
  | FunctionExpression _ (Some (Identifier _ f)) _ _ => [(f, mkDeclaration K_local fn)]
  | _ => []
  end.

(** The first registration of a name is the one kept. *)
Definition frame (entries : list (string * Declaration)) : gmap string Declaration :=
  list_to_map entries.

(** The scope of the program: its block-scoped declarations and every [var]
    outside a function. *)
Definition programFrame (program : TreePath) (body : list node) : gmap string Declaration :=
  frame (flat_map (declared true true program) body).

(** The scope of a block or a loop. *)
Definition blockFrame (block : TreePath) (body : list node) : gmap string Declaration :=
  frame (flat_map (declared true false block) body).

(** The scope of a function: its parameters, the own name of a function
    expression, and the declarations of its body block, which opens no scope
    of its own. *)
Definition functionFrame (fn : TreePath) (params : list node) (body : node)
  : gmap string Declaration :=
  frame (paramEntries fn params ++ localEntries fn ++
         match body with
         | BlockStatement _ stmts =>
             flat_map (declared true true (mkTreePath body (Some fn))) stmts
         | _ => []
         end).

(** The scope of a [catch] clause: the names of its parameter, bound to the
    clause, and the block-scoped declarations of its body block, which opens
    no scope of its own. *)
Definition catchFrame (clause : TreePath) (param : option node) (body : node)
  : gmap string Declaration :=
  frame (((fun x => (x, mkDeclaration K_let clause))
          <$> from_option bindingIdentifiers [] param) ++
         match body with
         | BlockStatement _ stmts =>
             flat_map (declared true false (mkTreePath body (Some clause))) stmts
         | _ => []
         end).

(** A pattern that is a parameter opens a scope of its own, from which
    [getBinding] sees, of the bindings of the function, only the parameters
    and the function's own name. *)
Definition patternScope (own : gmap string Declaration) (scope : Scope) : Scope :=
  ∅ :: filter (fun entry : string * Declaration =>
                 decl_kind entry.2 = K_param \/ decl_kind entry.2 = K_local) own
    :: scope.

Definition isFunction (n : node) : bool :=
  match n with
  | FunctionDeclaration _ _ _ _ | FunctionExpression _ _ _ _
  | ArrowFunctionExpression _ _ _ | ObjectMethod _ _ _ _ => true
  | _ => false
  end.

(** The block scopes around a position, innermost first, up to the nearest
    function or the program: what lies between the scope a [var] is
    registered in and the scope of its declarator. *)
Fixpoint blockScopes (position : TreePath) : Scope :=
  match position with
  | mkTreePath n parent =>
      let outer := match parent with Some p => blockScopes p | None => [] end in
      match n with
      | BlockStatement _ body =>
          match parent with
          | Some (mkTreePath p _) =>
              if isFunction p then []
              else match p with
                   | CatchClause _ _ _ => outer
                   | _ => blockFrame position body :: outer
                   end
          | None => blockFrame position body :: outer
          end
      | OtherScope _ children => blockFrame position children :: outer
      | CatchClause _ param body => catchFrame position param body :: outer
      | Program _ _ | FunctionDeclaration _ _ _ _ | FunctionExpression _ _ _ _
      | ArrowFunctionExpression _ _ _ | ObjectMethod _ _ _ _ => []
      | _ => outer
      end
  end.

(** [scope.getBinding(name)]: the own binding, else the parent's.  The scope
    of the declaring path ([binding.path.scope]) is the scope the binding was
    found in for a block-scoped declarator, a parameter and an import
    specifier, which are registered in the scope they sit in; a [var]
    declarator is registered in the scope of its function and sits in the
    block scopes between.  (A hoisted function name is registered in the
    enclosing scope while its path carries the function's own scope; the
    analyzer never reads the scope of such a path.  The lookup of the name
    [arguments], which stops at the nearest function that is not an arrow
    function, is not modelled.) *)
Fixpoint getBinding (scope : Scope) (name : string) : option Binding :=
  match scope with
  | [] => None
  | own :: parent =>
      match own !! name with
      | Some d =>
          Some (mkBinding (decl_kind d)
                  (mkNodePath (tp_node (decl_path d)) (tp_parent (decl_path d))
                     (match decl_kind d with
                      | K_var => from_option blockScopes [] (tp_parent (decl_path d)) ++ scope
                      | _ => scope
                      end)))
      | None => getBinding parent name
      end
  end.

(** *** Traversal order *)

(** Every path of the tree in the order [traverse] enters them, each with the
    scope in force at that node.  The body block of a function or of a
    [catch] clause shares the scope of its parent; a parameter that is a
    pattern has its [patternScope]; the key of a method keeps the scope around
    the method. *)
Fixpoint walk (parent : option TreePath) (scope : Scope) (n : node) {struct n}
  : list NodePath :=
  let here := mkTreePath n parent in
  let enter sc := mkNodePath n parent sc in
  let opt sc (o : option node) :=
    match o with Some c => walk (Some here) sc c | None => [] end in
  let param own p :=
    walk (Some here) (if isPattern p then patternScope own scope else own :: scope) p in
  let block sc body :=
    match body with
    | BlockStatement _ stmts =>
        mkNodePath body (Some here) sc ::
        flat_map (walk (Some (mkTreePath body (Some here))) sc) stmts
    | _ => walk (Some here) sc body
    end in
  let function_ params body :=
    let own := functionFrame here params body in
    flat_map (param own) params ++ block (own :: scope) body in
  match n with
  | Program _ body =>
      let sc := programFrame here body :: scope in
      enter sc :: flat_map (walk (Some here) sc) body
  | BlockStatement _ body | OtherScope _ body =>
      let sc := blockFrame here body :: scope in
      enter sc :: flat_map (walk (Some here) sc) body
  | FunctionDeclaration _ id params body =>
      let sc := functionFrame here params body :: scope in
      enter sc :: walk (Some here) sc id ++ function_ params body
  | FunctionExpression _ id params body =>
      let sc := functionFrame here params body :: scope in
      enter sc :: opt sc id ++ function_ params body
  | ObjectMethod _ key params body =>
      let sc := functionFrame here params body :: scope in
      enter sc :: walk (Some here) scope key ++ function_ params body
  | ArrowFunctionExpression _ params body =>
      let sc := functionFrame here params body :: scope in
      enter sc :: function_ params body
  | CatchClause _ param_ body =>
      let own := catchFrame here param_ body in
      enter (own :: scope)
      :: match param_ with Some p => param own p | None => [] end
      ++ block (own :: scope) body
  | ImportDeclaration _ specifiers _ =>
      enter scope :: flat_map (walk (Some here) scope) specifiers
  | ImportSpecifier _ imported local_ =>
      enter scope :: walk (Some here) scope imported ++ walk (Some here) scope local_
  | ImportDefaultSpecifier _ local_ | ImportNamespaceSpecifier _ local_ =>
      enter scope :: walk (Some here) scope local_
  | ExportNamedDeclaration _ declaration => enter scope :: opt scope declaration
  | VariableDeclaration _ _ declarations =>
      enter scope :: flat_map (walk (Some here) scope) declarations
  | VariableDeclarator _ id init =>
      enter scope :: walk (Some here) scope id ++ opt scope init
  | ExpressionStatement _ e => enter scope :: walk (Some here) scope e
  | ReturnStatement _ argument => enter scope :: opt scope argument
  | Identifier _ _ | StringLiteral _ _ => [enter scope]
  | TemplateLiteral _ _ expressions =>
      enter scope :: flat_map (walk (Some here) scope) expressions
  | ArrayExpression _ elements | ArrayPattern _ elements =>
      enter scope :: flat_map (opt scope) elements
  | ObjectExpression _ properties | ObjectPattern _ properties =>
      enter scope :: flat_map (walk (Some here) scope) properties
  | ObjectProperty _ key value =>
      enter scope :: walk (Some here) scope key ++ walk (Some here) scope value
  | BinaryExpression _ _ l r | AssignmentPattern _ l r =>
      enter scope :: walk (Some here) scope l ++ walk (Some here) scope r
  | CallExpression _ callee arguments =>
      enter scope :: walk (Some here) scope callee ++
      flat_map (walk (Some here) scope) arguments
  | MemberExpression _ object property =>
      enter scope :: walk (Some here) scope object ++ walk (Some here) scope property
  | AwaitExpression _ e | TSAsExpression _ e | TSTypeAssertion _ e
  | TSNonNullExpression _ e | TSSatisfiesExpression _ e | RestElement _ e =>
      enter scope :: walk (Some here) scope e
  | OtherNode _ children => enter scope :: flat_map (walk (Some here) scope) children
  end.

(** [traverse(ast, { T(path) {...} })]: the paths of the nodes of kind [T],
    in traversal order. *)
Definition traverse (ast : node) (is_T : node -> bool) : list NodePath :=
  filter (fun p => is_T (path_node p) = true) (walk None [] ast).

(** ** Resolved values *)

(** [string | string[] | Record<string, string>[]]; [null] is [None]. *)
Inductive Value :=
| VString (s : string)
| VStrings (l : list string)
| VRecords (l : list (gmap string string)).

Record ResolvedValue := mkResolved { value : option Value; isDynamic : bool }.

Definition dynamic : ResolvedValue := {| value := None; isDynamic := true |}.
Definition resolved (v : Value) : ResolvedValue := {| value := Some v; isDynamic := false |}.

(** [typeof v === 'object'], [v !== null] and [Array.isArray(v)]. *)
Definition typeof_object (v : option Value) : bool :=
  match v with Some (VString _) => false | _ => true end.
Definition not_null (v : option Value) : bool :=
  match v with Some _ => true | None => false end.
Definition Array_isArray (v : option Value) : bool :=
  match v with Some (VStrings _ | VRecords _) => true | _ => false end.

(** [!res.isDynamic && typeof res.value === 'string'], with the string. *)
Definition resolvedString (res : ResolvedValue) : option string :=
  match isDynamic res, value res with
  | false, Some (VString s) => Some s
  | _, _ => None
  end.

(** [parts.join('')] *)
Definition join (parts : list string) : string := String.concat "" parts.

(** ** Parsing *)

(** Babel's [parse] either returns the tree of a file or throws. *)
Inductive ParseResult := Parsed (ast : node) | Throws.

(** [(path: string) => string | undefined] *)
Definition Importer := string -> option string.

(** The unwrapping loops of [foldConstant]: on the node itself, and on the
    initializer of a local binding (which leaves [satisfies] in place). *)
Fixpoint unwrapTS (n : node) : node :=
  match n with
  | TSAsExpression _ e | TSTypeAssertion _ e
  | TSNonNullExpression _ e | TSSatisfiesExpression _ e => unwrapTS e
  | _ => n
  end.

Fixpoint unwrapInit (n : node) : node :=
  match n with
  | TSAsExpression _ e | TSTypeAssertion _ e | TSNonNullExpression _ e => unwrapInit e
  | _ => n
  end.

(** ** The array, object and template loops of [foldConstant]

    [self] stands for the recursive call
    [foldConstant(_, scope, importer, depth + 1)]. *)

Inductive ArrayType := T_unknown | T_string | T_object | T_mixed.

Record ArrayState := mkArrayState {
  type_ : ArrayType;
  stringElements : list string;
  objectElements : list (gmap string string) }.

(** [for (const prop of el.properties)]: the record of the [identifier: string]
    properties; any other property is skipped.  The record is the own
    properties of an object that starts as [{}]: [obj[k] = s] adds or replaces
    the own property [k], except for [__proto__], where the assignment reaches
    the setter the object inherits, which ignores a string and stores
    nothing. *)
Definition foldProperties (self : option node -> ResolvedValue) (properties : list node)
  : gmap string string :=
  fold_left
    (fun obj prop =>
       match prop with
       | ObjectProperty _ (Identifier _ k) v =>
           match resolvedString (self (Some v)) with
           | Some s => if String.eqb k "__proto__" then obj else <[k := s]> obj
           | None => obj
           end
       | _ => obj
       end) properties ∅.

(** The members every object inherits from [Object.prototype], each with the
    text that [String(member)] gives for it in Node: the source text of a
    built-in function, and [[object Object]] for the prototype itself, which
    is what [__proto__] reads. *)
Definition objectPrototype : list (string * string) :=
  [ ("constructor", "function Object() { [native code] }");
    ("__defineGetter__", "function __defineGetter__() { [native code] }");
    ("__defineSetter__", "function __defineSetter__() { [native code] }");
    ("hasOwnProperty", "function hasOwnProperty() { [native code] }");
    ("__lookupGetter__", "function __lookupGetter__() { [native code] }");
    ("__lookupSetter__", "function __lookupSetter__() { [native code] }");
    ("isPrototypeOf", "function isPrototypeOf() { [native code] }");
    ("propertyIsEnumerable", "function propertyIsEnumerable() { [native code] }");
    ("toString", "function toString() { [native code] }");
    ("valueOf", "function valueOf() { [native code] }");
    ("__proto__", "[object Object]");
    ("toLocaleString", "function toLocaleString() { [native code] }") ].

(** [item[propertyName]] when it is truthy: the own property when the record
    has one (an empty string is falsy), else the member the record inherits,
    which is a function or an object and so truthy.  An inherited member is
    represented by its text, which is what the template literal of [fullKey]
    makes of it; under an empty namespace the key is the member itself. *)
Definition readProperty (item : gmap string string) (propertyName : string)
  : option string :=
  match item !! propertyName with
  | Some s => if truthy (Some s) then Some s else None
  | None => (list_to_map objectPrototype : gmap string string) !! propertyName
  end.

(** [for (const el of node.elements)], the state being [type],
    [stringElements] and [objectElements]; a [break] returns the state. *)
Fixpoint foldElements (self : option node -> ResolvedValue)
    (elements : list (option node)) (st : ArrayState) : ArrayState :=
  match elements with
  | [] => st
  | None :: rest => foldElements self rest st
  | Some el :: rest =>
      let res := self (Some el) in
      let mixed := mkArrayState T_mixed (stringElements st) (objectElements st) in
      match resolvedString res with
      | Some s =>
          match type_ st with
          | T_unknown | T_string =>
              foldElements self rest
                (mkArrayState T_string (stringElements st ++ [s]) (objectElements st))
          | _ => mixed
          end
      | None =>
          if negb (isDynamic res) && typeof_object (value res)
             && not_null (value res) && negb (Array_isArray (value res))
          then foldElements self rest st
          else
            match el with
            | ObjectExpression _ properties =>
                match type_ st with
                | T_unknown | T_object =>
                    foldElements self rest
                      (mkArrayState T_object (stringElements st)
                         (objectElements st ++ [foldProperties self properties]))
                | _ => mixed
                end
            | _ => mixed
            end
      end
  end.

Definition foldArray (self : option node -> ResolvedValue) (elements : list (option node))
  : ResolvedValue :=
  let st := foldElements self elements (mkArrayState T_unknown [] []) in
  match type_ st with
  | T_string => resolved (VStrings (stringElements st))
  | T_object => resolved (VRecords (objectElements st))
  | _ => dynamic
  end.

(** [for (let i = 0; i < quasis.length; i++)]: the resolved parts, or [None]
    when a substitution is not a resolved string ([isDynamic = true; break]). *)
Fixpoint foldTemplate (self : option node -> ResolvedValue)
    (quasis : list (option string)) (expressions : list node)
    (resolvedParts : list string) : option (list string) :=
  match quasis with
  | [] => Some resolvedParts
  | quasi :: quasis' =>
      let resolvedParts := resolvedParts ++ [or_empty quasi] in
      match expressions with
      | [] => foldTemplate self quasis' [] resolvedParts
      | expr :: expressions' =>
          match resolvedString (self (Some expr)) with
          | Some s => foldTemplate self quasis' expressions' (resolvedParts ++ [s])
          | None => None
          end
      end
  end.

(** The initializers that the [ExportNamedDeclaration] visitor folds, in the
    order it meets them: those of the declarators of exported variable
    declarations whose [id.name] is [importedName]. *)
Definition exportedInits (subAst : node) (importedName : option string)
  : list (option node) :=
  flat_map
    (fun path =>
       match path_node path with
       | ExportNamedDeclaration _ (Some (VariableDeclaration _ _ declarations)) =>
           omap (fun decl =>
                   match decl with
                   | VariableDeclarator _ id init =>
                       if decide (name_of id = importedName) then Some init else None
                   | _ => None
                   end) declarations
       | _ => []
       end)
    (traverse subAst isExportNamedDeclaration).

(** ** Results *)

(** The result of [resolveNamespaceFromCall]. *)
Module NamespaceResolution.
Record t := mk {
  namespace : option string;
  isDynamic : bool;
  dynamicPlaceholder : option string }.
End NamespaceResolution.

Module UseTranslationsAnalysis.
Record t := mk {
  variableName : string;
  namespace : option string;
  isDynamic : bool;
  dynamicPlaceholder : option string;
  location : Loc }.
End UseTranslationsAnalysis.

Module AnalyzedKey.
Record t := mk {
  key : string;
  start : nat;
  end_ : nat;
  quoted : bool;
  variableName : string;
  namespace : option string }.
End AnalyzedKey.

(** [callExpr.arguments] *)
Definition arguments_of (n : node) : list node :=
  match n with CallExpression _ _ args => args | _ => [] end.

(** The initializer of a declarator, looking through one [await]. *)
Definition awaited (init : option node) : option node :=
  match init with
  | Some (AwaitExpression _ argument) => Some argument
  | _ => init
  end.

Definition isAccessor (functionName : option string) : bool :=
  bool_decide (functionName = Some "useTranslations")
  || bool_decide (functionName = Some "getTranslations").

(** [a || b] on strings that may be [undefined]. *)
Definition or_else (a b : option string) : option string :=
  if truthy a then a else b.

(** The checks both map-iteration rules make on the binding of the callback
    parameter: its function is directly inside a call whose callee is
    [object.map] with [object] an identifier.  Gives [object.node]. *)
Definition mapCallObject (binding : Binding) : option node :=
  if decide (binding_kind binding = K_param) then
    fnPath ← path_parent (binding_path binding);
    callExprPath ← tp_parent fnPath;
    match tp_node callExprPath with
    | CallExpression _ (MemberExpression _ ((Identifier _ _) as object)
                          (Identifier _ "map")) _ => Some object
    | _ => None
    end
  else None.

(** ** Predicates used to state the properties *)

(** The invariant of a [ResolvedValue]: not dynamic with a value of one of
    the three shapes, or dynamic without value. *)
Definition hasShape (r : ResolvedValue) : Prop :=
  (isDynamic r = false ->
   (exists s, value r = Some (VString s)) \/
   (exists l, value r = Some (VStrings l)) \/
   (exists l, value r = Some (VRecords l))) /\
  (isDynamic r = true -> value r = None).

(** A chain of [len] identifier aliases starting at [n]: [n] is an identifier
    bound to a local declarator whose initializer starts a chain of
    [len - 1] aliases.  A chain of length 0 is any expression. *)
Fixpoint aliasChain (scope : Scope) (len : nat) (n : node) : bool :=
  match len with
  | 0 => true
  | S len' =>
      match unwrapTS n with
      | Identifier _ name =>
          match getBinding scope name with
          | Some binding =>
              negb (bool_decide (binding_kind binding = K_module))
              && match path_node (binding_path binding) with
                 | VariableDeclarator _ _ (Some init) => aliasChain scope len' init
                 | _ => false
                 end
          | None => false
          end
      | _ => false
      end
  end.

(** The strings of an array literal whose elements are all string literals. *)
Fixpoint stringLiterals (elements : list (option node)) : option (list string) :=
  match elements with
  | [] => Some []
  | Some (StringLiteral _ s) :: rest => cons s <$> stringLiterals rest
  | _ :: _ => None
  end.

(** The strings a name is bound to when its binding is a local declarator
    initialised with an array literal of string literals (possibly inside
    type wrappers). *)
Definition boundStringArray (scope : Scope) (x : string) : option (list string) :=
  match getBinding scope x with
  | Some binding =>
      if decide (binding_kind binding = K_module) then None
      else
        match path_node (binding_path binding) with
        | VariableDeclarator _ _ (Some init) =>
            match unwrapTS init with
            | ArrayExpression _ elements => stringLiterals elements
            | _ => None
            end
        | _ => None
        end
  | None => None
  end.

(** The literal namespace of the (possibly awaited) accessor call a name is
    bound to. *)
Definition accessorLiteral (scope : Scope) (x : string) : option string :=
  match getBinding scope x with
  | Some binding =>
      match awaited (init_of (path_node (binding_path binding))) with
      | Some (CallExpression _ callee (StringLiteral _ ns :: _)) =>
          if isAccessor (or_else (name_of callee) (property_of callee ≫= name_of))
          then Some ns else None
      | _ => None
      end
  | None => None
  end.

(** The variable of a callee that the visitor takes for a lookup: a plain
    identifier, or an identifier followed by a property that is either not an
    identifier or one of [rich], [markup] and [raw]. *)
Definition lookupCallee (callee : node) : option string :=
  match callee with
  | Identifier _ v => if String.eqb v "" then None else Some v
  | MemberExpression _ (Identifier _ v) property =>
      if String.eqb v "" then None
      else
        match property with
        | Identifier _ m =>
            if bool_decide (m ∈ ["rich"; "markup"; "raw"]) then Some v else None
        | _ => Some v
        end
  | _ => None
  end.

(** The key a lookup emits for the local key [key] under [namespace]. *)
Definition qualified (namespace key : string) : string :=
  if String.eqb namespace "" then key else namespace +:+ "." +:+ key.

(** ** Example programs

    The trees are those Babel builds for the quoted source texts; positions
    are given where a property reads them and are 0 elsewhere. *)

Definition L0 : Loc := mkLoc 0 0 0.
Definition ident (x : string) : node := Identifier L0 x.
Definition str (s : string) : node := StringLiteral L0 s.
Definition call (f : node) (args : list node) : node := CallExpression L0 f args.
Definition member (o : node) (p : string) : node := MemberExpression L0 o (ident p).
Definition stmt (e : node) : node := ExpressionStatement L0 e.
Definition constDecl (x : string) (e : node) : node :=
  VariableDeclaration L0 V_const [VariableDeclarator L0 (ident x) (Some e)].
Definition fnDecl (f : string) (body : list node) : node :=
  FunctionDeclaration L0 (ident f) [] (BlockStatement L0 body).
Definition arrow (p : string) (body : node) : node :=
  ArrowFunctionExpression L0 [ident p] body.
Definition strings (l : list string) : node := ArrayExpression L0 (Some ∘ str <$> l).

Definition login_source : string :=
  "const t = useTranslations('auth'); t('login.title')".

Definition login_ast : node :=
  Program (mkLoc 0 51 1)
    [ VariableDeclaration (mkLoc 0 34 1) V_const
        [ VariableDeclarator (mkLoc 6 33 1) (Identifier (mkLoc 6 7 1) "t")
            (Some (CallExpression (mkLoc 10 33 1)
                     (Identifier (mkLoc 10 25 1) "useTranslations")
                     [StringLiteral (mkLoc 26 32 1) "auth"])) ];
      ExpressionStatement (mkLoc 35 51 1)
        (CallExpression (mkLoc 35 51 1) (Identifier (mkLoc 35 36 1) "t")
           [StringLiteral (mkLoc 37 50 1) "login.title"]) ].

(** [const ITEMS = [...]; ITEMS.map(i => t(i))] *)
Definition items_source : string := "const ITEMS = ['a','b']; ITEMS.map(i => t(i))".
Definition items_ast (elements : list string) : node :=
  Program L0
    [ constDecl "ITEMS" (strings elements);
      stmt (call (member (ident "ITEMS") "map") [arrow "i" (call (ident "t") [ident "i"])]) ].

(** [[...].map(i => t(i))] *)
Definition inline_items_source : string := "['a','b'].map(i => t(i))".
Definition inline_items_ast (elements : list string) : node :=
  Program L0
    [ stmt (call (member (strings elements) "map")
              [arrow "i" (call (ident "t") [ident "i"])]) ].

(** [function A() { const t = useTranslations(ns1); t(k1) }
     function B() { const t = useTranslations(ns2); t(k2) }] *)
Definition two_functions_source : string :=
  "function A() { const t = useTranslations('ns1'); t('key1') } "
  +:+ "function B() { const t = useTranslations('ns2'); t('key2') }".
Definition two_functions_ast (ns1 k1 ns2 k2 : string) : node :=
  Program L0
    [ fnDecl "A" [ constDecl "t" (call (ident "useTranslations") [str ns1]);
                   stmt (call (ident "t") [str k1]) ];
      fnDecl "B" [ constDecl "t" (call (ident "useTranslations") [str ns2]);
                   stmt (call (ident "t") [str k2]) ] ].

(** [function A() { const t = useTranslations(''); t('title') }
     function B() { const t = useTranslations('other') }] *)
Definition empty_namespace_source : string :=
  "function A() { const t = useTranslations(''); t('title') } "
  +:+ "function B() { const t = useTranslations('other') }".
Definition empty_namespace_ast : node :=
  Program L0
    [ fnDecl "A" [ constDecl "t" (call (ident "useTranslations") [str ""]);
                   stmt (call (ident "t") [str "title"]) ];
      fnDecl "B" [ constDecl "t" (call (ident "useTranslations") [str "other"]) ] ].

(** [const a = 'scope'; const b = '.sub'; const t = useTranslations(a + b)] *)
Definition concat_source : string :=
  "const a = 'scope'; const b = '.sub'; const t = useTranslations(a + b)".
Definition concat_ast : node :=
  Program L0
    [ constDecl "a" (str "scope"); constDecl "b" (str ".sub");
      constDecl "t" (call (ident "useTranslations")
                       [BinaryExpression L0 "+" (ident "a") (ident "b")]) ].

(** [import { CATEGORIES } from './constants'; CATEGORIES.map(cat => t(cat))]
    and the module [export const CATEGORIES = ['electronics', 'books']]. *)
Definition categories_source : string :=
  "import { CATEGORIES } from './constants'; CATEGORIES.map(cat => t(cat))".
Definition categories_ast : node :=
  Program L0
    [ ImportDeclaration L0 [ImportSpecifier L0 (ident "CATEGORIES") (ident "CATEGORIES")]
        "./constants";
      stmt (call (member (ident "CATEGORIES") "map")
              [arrow "cat" (call (ident "t") [ident "cat"])]) ].
Definition constants_source : string :=
  "export const CATEGORIES = ['electronics', 'books']".
Definition constants_ast : node :=
  Program L0
    [ ExportNamedDeclaration L0
        (Some (constDecl "CATEGORIES" (strings ["electronics"; "books"]))) ].

(** [const a0 = 'x'; const a1 = a0; ... const a6 = a5; const t = useTranslations(a6)] *)
Definition chain_source : string :=
  "const a0 = 'x'; const a1 = a0; const a2 = a1; const a3 = a2; "
  +:+ "const a4 = a3; const a5 = a4; const a6 = a5; const t = useTranslations(a6)".
Definition chain_ast : node :=
  Program L0
    [ constDecl "a0" (str "x"); constDecl "a1" (ident "a0");
      constDecl "a2" (ident "a1"); constDecl "a3" (ident "a2");
      constDecl "a4" (ident "a3"); constDecl "a5" (ident "a4");
      constDecl "a6" (ident "a5");
      constDecl "t" (call (ident "useTranslations") [ident "a6"]) ].

(** [t['raw']('k')] *)
Definition computed_source : string := "t['raw']('k')".
Definition computed_ast : node :=
  Program L0 [ stmt (call (MemberExpression L0 (ident "t") (str "raw")) [str "k"]) ].

(** A parser that knows the example sources and throws on any other text. *)
Definition exampleParse (code : string) : ParseResult :=
  default Throws
    (Parsed <$>
       list_to_map (M := gmap string node)
         [ (login_source, login_ast);
           (items_source, items_ast ["a"; "b"]);
           (inline_items_source, inline_items_ast ["a"; "b"]);
           (two_functions_source, two_functions_ast "ns1" "key1" "ns2" "key2");
           (empty_namespace_source, empty_namespace_ast);
           (concat_source, concat_ast);
           (categories_source, categories_ast);
           (constants_source, constants_ast);
           (chain_source, chain_ast);
           (computed_source, computed_ast) ] !! code).

(** [program.body] *)
Definition program_body (ast : node) : list node :=
  match ast with Program _ body => body | _ => [] end.

(** The scope of the top level of a program. *)
Definition programScope (ast : node) : Scope :=
  match ast with
  | Program _ body => [programFrame (mkTreePath ast None) body]
  | _ => []
  end.

(** The resolver that serves the module of the import example. *)
Definition exampleImporter : Importer :=
  fun path => if String.eqb path "./constants" then Some constants_source else None.

(** The string a name is bound to when its binding is a local declarator
    initialised with a string literal. *)
Definition constantString (scope : Scope) (x : string) : option string :=
  match getBinding scope x with
  | Some binding =>
      if decide (binding_kind binding = K_module) then None
      else
        match path_node (binding_path binding) with
        | VariableDeclarator _ _ (Some (StringLiteral _ s)) => Some s
        | _ => None
        end
  | None => None
  end.

(** ** The framework's string helpers (src/frameworks/next-intl.ts)

    A character of a [string] stands for one code unit of the JavaScript
    string. *)

(** [s.split(sep)] for a one-character separator (the delimiter pattern
    matches exactly the dot). *)
Fixpoint split (sep : ascii) (s : string) : list string :=
  match s with
  | "" => [""]
  | String a s' =>
      if Ascii.eqb a sep then "" :: split sep s'
      else
        match split sep s' with
        | h :: t => String a h :: t
        | [] => [String a ""]
        end
  end.

(** [s.includes(sub)], [s.startsWith(prefix)] and [s.slice(start)] for a
    start that is not negative. *)
Fixpoint includes (sub s : string) : bool :=
  String.prefix sub s
  || match s with
     | "" => false
     | String _ s' => includes sub s'
     end.

Definition startsWith (prefix s : string) : bool := String.prefix prefix s.

Fixpoint slice (start : nat) (s : string) : string :=
  match start, s with
  | 0, _ => s
  | S _, "" => ""
  | S start', String _ s' => slice start' s'
  end.

Definition namespaceDelimiters : list string := ["."].

(** [key.split(this.namespaceDelimitersRegex).join('.')] *)
Definition dotted (key : string) : string := String.concat "." (split "."%char key).

(** [rewriteKeys(key, source, context)]; [source] is not read, and
    [namespace] is [context.namespace]. *)
Definition rewriteKeys (key : string) (namespace : option string) : string :=
  let dottedKey := dotted key in
  if existsb (fun delimiter => includes delimiter key) namespaceDelimiters
     && truthy namespace
     && startsWith (dotted (default "" namespace)) dottedKey
  then slice (String.length (default "" namespace) + 1) dottedKey
  else dottedKey.

(** [refactorTemplates(keypath)] *)
Definition refactorTemplates (keypath : string) : list string :=
  let parts := split "."%char keypath in
  let keypaths :=
    imap (fun index cur => String.concat "." (drop (length parts - index - 1) parts))
      parts in
  ((fun cur => "{t('" +:+ cur +:+ "')}") <$> keypaths)
  ++ ((fun cur => "t('" +:+ cur +:+ "')") <$> keypaths).

(** A range of [getScopeRange]. *)
Module ScopeRange.
Record t := mk {
  start : nat;
  end_ : nat;
  namespace : string }.
End ScopeRange.

(** The extensions the importer tries, in order. *)
Definition extensions : list string :=
  [""; ".ts"; ".tsx"; ".js"; ".jsx"; "/index.ts"; "/index.js"].

(** ** The usage report (src/commands, [generateMarkdown])

    Of a [UsageReport] and its [KeyUsage]s the function reads the three lists,
    the key path and the file path of each occurrence. *)

Record Occurrence := mkOccurrence { filepath : string }.
Record KeyUsage := mkKeyUsage { keypath : string; occurrences : list Occurrence }.
Record UsageReport := mkUsageReport {
  active : list KeyUsage;
  idle : list KeyUsage;
  missing : list KeyUsage }.

(** [o.filepath.split('/').pop()] *)
Definition fileName (o : Occurrence) : string :=
  default "" (last (split "/"%char (filepath o))).

(** [[...new Set(names)]]: the names in the order they are first met. *)
Definition distinct (names : list string) : list string :=
  fold_left (fun seen name => if decide (name ∈ seen) then seen else seen ++ [name])
    names [].

Definition newline : string := String (ascii_of_nat 10) "".

(** The row of a key in the table of missing keys. *)
Definition missingRow (usage : KeyUsage) : string :=
  let files := String.concat ", " (distinct (fileName <$> occurrences usage)) in
  "| `" +:+ keypath usage +:+ "` | " +:+ files +:+ " |".

(** The [lines] of [generateMarkdown]; [isoNow] is [new Date().toISOString()]. *)
Definition generateMarkdownLines (isoNow : string) (report : UsageReport) : list string :=
  let now := default "" (split "T"%char isoNow !! 0) in
  [ "# i18n Usage Report"; ""; "> Generated on " +:+ now; "";
    "## Summary"; ""; "| Status | Count |"; "|--------|-------|";
    "| ✅ Active (In Use) | " +:+ pretty (length (active report)) +:+ " |";
    "| ⚠️ Idle (Not Used) | " +:+ pretty (length (idle report)) +:+ " |";
    "| ❌ Missing | " +:+ pretty (length (missing report)) +:+ " |";
    "| **Total** | **"
      +:+ pretty (length (active report) + length (idle report) + length (missing report))
      +:+ "** |";
    "" ]
  ++ (if Nat.ltb 0 (length (active report)) then
        [ "## ✅ Active Keys (" +:+ pretty (length (active report)) +:+ ")"; "";
          "Keys that are defined and used in code."; "";
          "| Key | Usages |"; "|-----|--------|" ]
        ++ ((fun usage =>
               "| `" +:+ keypath usage +:+ "` | "
               +:+ pretty (length (occurrences usage)) +:+ " |") <$> active report)
        ++ [""]
      else [])
  ++ (if Nat.ltb 0 (length (idle report)) then
        [ "## ⚠️ Idle Keys (" +:+ pretty (length (idle report)) +:+ ")"; "";
          "Keys that are defined but NOT used in code. Consider removing these."; "";
          "<details>"; "<summary>Click to expand</summary>"; "" ]
        ++ ((fun usage => "- `" +:+ keypath usage +:+ "`") <$> idle report)
        ++ [""; "</details>"; ""]
      else [])
  ++ (if Nat.ltb 0 (length (missing report)) then
        [ "## ❌ Missing Keys (" +:+ pretty (length (missing report)) +:+ ")"; "";
          "Keys that are used in code but NOT defined in locale files."; "";
          "| Key | Occurrences |"; "|-----|-------------|" ]
        ++ (missingRow <$> missing report)
        ++ [""]
      else []).

(** [generateMarkdown(report)] *)
Definition generateMarkdown (isoNow : string) (report : UsageReport) : string :=
  String.concat newline (generateMarkdownLines isoNow report).

(** ** Predicates for the further properties *)

(** The string reached from [n] through exactly [len] identifier aliases: the
    last initializer is a string literal. *)
Fixpoint chainString (scope : Scope) (len : nat) (n : node) : option string :=
  match len with
  | 0 => match unwrapTS n with StringLiteral _ s => Some s | _ => None end
  | S len' =>
      match unwrapTS n with
      | Identifier _ name =>
          match getBinding scope name with
          | Some binding =>
              if decide (binding_kind binding = K_module) then None
              else
                match path_node (binding_path binding) with
                | VariableDeclarator _ _ (Some init) => chainString scope len' init
                | _ => None
                end
          | None => None
          end
      | _ => None
      end
  end.

(** The text of a template literal whose substitutions have the values
    [strs]: quasis and values in source order. *)
Fixpoint templateText (quasis : list (option string)) (strs : list string) : string :=
  match quasis with
  | [] => ""
  | quasi :: quasis' =>
      or_empty quasi +:+
      match strs with
      | [] => templateText quasis' []
      | s :: strs' => s +:+ templateText quasis' strs'
      end
  end.

(** The property lists of an array literal whose elements are all object
    literals. *)
Definition objectProperties (elements : list (option node)) : option (list (list node)) :=
  mapM (fun el => match el with ObjectExpression _ properties => Some properties | _ => None end)
    (omap id elements).

(** The [key: string] pairs of an object literal under [fold], which gives
    the string an expression folds to: the properties with an identifier key
    whose value has one, in source order. *)
Definition propertyStrings (fold : node -> option string) (properties : list node)
  : list (string * string) :=
  omap (fun prop =>
          match prop with
          | ObjectProperty _ (Identifier _ k) v => (fun s => (k, s)) <$> fold v
          | _ => None
          end) properties.

(** What the record made from [pairs] holds for the name [k]: the string of
    the last pair for [k], and nothing for [__proto__]. *)
Definition recordEntry (pairs : list (string * string)) (k : string) : option string :=
  if String.eqb k "__proto__" then None
  else last (omap (fun kv : string * string =>
                     if decide (kv.1 = k) then Some kv.2 else None) pairs).

(** The [key: 'value'] pairs of an object literal whose properties all have
    an identifier key other than [__proto__] and a string literal value, and
    the record they make (a later pair for the same key replaces the earlier
    one). *)
Definition literalProperties (properties : list node) : option (list (string * string)) :=
  mapM (fun prop =>
          match prop with
          | ObjectProperty _ (Identifier _ k) (StringLiteral _ v) =>
              if String.eqb k "__proto__" then None else Some (k, v)
          | _ => None
          end) properties.

Definition recordOf (pairs : list (string * string)) : gmap string string :=
  fold_left (fun obj kv => <[kv.1 := kv.2]> obj) pairs ∅.

(** The records a name is bound to when its binding is a local declarator
    initialised with an array literal of such object literals. *)
Definition boundRecordArray (scope : Scope) (x : string)
  : option (list (gmap string string)) :=
  match getBinding scope x with
  | Some binding =>
      if decide (binding_kind binding = K_module) then None
      else
        match path_node (binding_path binding) with
        | VariableDeclarator _ _ (Some init) =>
            match unwrapTS init with
            | ArrayExpression _ elements =>
                propss ← objectProperties elements;
                pairss ← mapM literalProperties propss;
                Some (recordOf <$> pairss)
            | _ => None
            end
        | _ => None
        end
  | None => None
  end.

(** The own property [prop] of a record when it is not the empty string. *)
Definition truthyProperty (prop : string) (item : gmap string string) : option string :=
  s ← item !! prop; if String.eqb s "" then None else Some s.

(** The names of the members every object inherits. *)
Definition inheritedMembers : list string :=
  [ "constructor"; "__defineGetter__"; "__defineSetter__"; "hasOwnProperty";
    "__lookupGetter__"; "__lookupSetter__"; "isPrototypeOf"; "propertyIsEnumerable";
    "toString"; "valueOf"; "__proto__"; "toLocaleString" ].

(** The namespaces of the declarations of [v] that [namespaceMap] records,
    in order. *)
Definition recordedNamespaces (v : string)
    (translationsAnalysis : list UseTranslationsAnalysis.t) : list string :=
  omap (fun analysis =>
          if decide (UseTranslationsAnalysis.variableName analysis = v)
          then match UseTranslationsAnalysis.namespace analysis with
               | Some ns => if String.eqb ns "" then None else Some ns
               | None => None
               end
          else None) translationsAnalysis.

(** [name] is bound, in [scope], as a parameter of a function that is
    directly an argument of a call [X.map(...)] whose receiver [X] is an
    identifier. *)
Definition mapCallback (scope : Scope) (name : string) : Prop :=
  exists bp fn call_ lc lm lo X lp args,
    getBinding scope name = Some bp /\
    binding_kind bp = K_param /\
    path_parent (binding_path bp) = Some fn /\
    tp_parent fn = Some call_ /\
    tp_node call_
    = CallExpression lc (MemberExpression lm (Identifier lo X) (Identifier lp "map")) args.

(** No [export] declaration anywhere inside [n]. *)
Fixpoint noExport (n : node) : bool :=
  let opt (o : option node) := match o with Some c => noExport c | None => true end in
  match n with
  | ExportNamedDeclaration _ _ => false
  | Identifier _ _ | StringLiteral _ _ => true
  | Program _ children | BlockStatement _ children | OtherScope _ children
  | OtherNode _ children | ImportDeclaration _ children _
  | VariableDeclaration _ _ children | ObjectExpression _ children
  | ObjectPattern _ children | TemplateLiteral _ _ children => forallb noExport children
  | ArrayExpression _ elements | ArrayPattern _ elements => forallb opt elements
  | ImportSpecifier _ a b | ObjectProperty _ a b | BinaryExpression _ _ a b
  | MemberExpression _ a b | AssignmentPattern _ a b => noExport a && noExport b
  | ImportDefaultSpecifier _ e | ImportNamespaceSpecifier _ e | ExpressionStatement _ e
  | AwaitExpression _ e | TSAsExpression _ e | TSTypeAssertion _ e
  | TSNonNullExpression _ e | TSSatisfiesExpression _ e | RestElement _ e => noExport e
  | VariableDeclarator _ id init => noExport id && opt init
  | ReturnStatement _ argument => opt argument
  | FunctionDeclaration _ id params body =>
      noExport id && forallb noExport params && noExport body
  | FunctionExpression _ id params body =>
      opt id && forallb noExport params && noExport body
  | ObjectMethod _ key params body =>
      noExport key && forallb noExport params && noExport body
  | ArrowFunctionExpression _ params body => forallb noExport params && noExport body
  | CatchClause _ param body => opt param && noExport body
  | CallExpression _ callee arguments => noExport callee && forallb noExport arguments
  end.

(** The export declarations of a module are the statements of its body: no
    statement holds one inside. *)
Definition flatExports (body : list node) : bool :=
  forallb (fun stmt =>
             match stmt with
             | ExportNamedDeclaration _ (Some d) => noExport d
             | ExportNamedDeclaration _ None => true
             | _ => noExport stmt
             end) body.

(** The initializers of the declarators named [name] in the variable
    declarations that the statements of [body] export, in source order. *)
Definition namedInits (name : string) (body : list node) : list (option node) :=
  flat_map
    (fun stmt =>
       match stmt with
       | ExportNamedDeclaration _ (Some (VariableDeclaration _ _ declarations)) =>
           omap (fun decl =>
                   match decl with
                   | VariableDeclarator _ (Identifier _ x) init =>
                       if decide (x = name) then Some init else None
                   | _ => None
                   end) declarations
       | _ => []
       end) body.

(** The paths of the export declarations among [paths]. *)
Definition exports (paths : list NodePath) : list NodePath :=
  filter (fun p => isExportNamedDeclaration (path_node p) = true) paths.

(** No scope of the chain holds a binding made by an import. *)
Definition noImportBindings (scope : Scope) : bool :=
  forallb (fun own : gmap string Declaration =>
             forallb (fun entry : string * Declaration =>
                        negb (bool_decide (decl_kind entry.2 = K_module)))
               (map_to_list own)) scope.

(** ** Further example programs *)

(** The programs below are written on one line and carry the positions Babel
    gives their nodes. *)
Definition at_ (start end_ : nat) : Loc := mkLoc start end_ 1.

(** An array of objects and a lookup call on a property of the callback's
    parameter. *)
Definition sections_source : string :=
  "const SECTIONS = [{ id: 'section-basic', label: 'nav.basic' }, { id: "
  +:+ "'section-groupbuy', label: 'nav.group_buy' }]; SECTIONS.map((section) => "
  +:+ "t(section.label))".
Definition sections_ast : node :=
  Program (at_ 0 159)
    [ VariableDeclaration (at_ 0 115) V_const
        [ VariableDeclarator (at_ 6 114) (Identifier (at_ 6 14) "SECTIONS")
            (Some (ArrayExpression (at_ 17 114)
                    [ Some (ObjectExpression (at_ 18 61)
                             [ ObjectProperty (at_ 20 39) (Identifier (at_ 20 22) "id")
                                 (StringLiteral (at_ 24 39) "section-basic");
                               ObjectProperty (at_ 41 59) (Identifier (at_ 41 46) "label")
                                 (StringLiteral (at_ 48 59) "nav.basic") ]);
                      Some (ObjectExpression (at_ 63 113)
                             [ ObjectProperty (at_ 65 87) (Identifier (at_ 65 67) "id")
                                 (StringLiteral (at_ 69 87) "section-groupbuy");
                               ObjectProperty (at_ 89 111) (Identifier (at_ 89 94) "label")
                                 (StringLiteral (at_ 96 111) "nav.group_buy") ]) ])) ];
      ExpressionStatement (at_ 116 159)
        (CallExpression (at_ 116 159)
          (MemberExpression (at_ 116 128) (Identifier (at_ 116 124) "SECTIONS")
            (Identifier (at_ 125 128) "map"))
          [ ArrowFunctionExpression (at_ 129 158)
              [Identifier (at_ 130 137) "section"]
              (CallExpression (at_ 142 158) (Identifier (at_ 142 143) "t")
                [ MemberExpression (at_ 144 157) (Identifier (at_ 144 151) "section")
                    (Identifier (at_ 152 157) "label") ]) ]) ].

(** Three functions that each declare their own [t]: the first through an
    awaited [getTranslations], the second with the empty namespace. *)
Definition shadowed_source : string :=
  "async function A() { const t = await getTranslations('first'); t('k1') } "
  +:+ "function B() { const t = useTranslations(''); t('k2') } function C() { "
  +:+ "const t = useTranslations('third'); t('k3') }".
Definition shadowed_ast : node :=
  Program (at_ 0 189)
    [ FunctionDeclaration (at_ 0 72) (Identifier (at_ 15 16) "A")
        []
        (BlockStatement (at_ 19 72)
          [ VariableDeclaration (at_ 21 62) V_const
              [ VariableDeclarator (at_ 27 61) (Identifier (at_ 27 28) "t")
                  (Some (AwaitExpression (at_ 31 61)
                          (CallExpression (at_ 37 61)
                            (Identifier (at_ 37 52) "getTranslations")
                            [StringLiteral (at_ 53 60) "first"]))) ];
            ExpressionStatement (at_ 63 70)
              (CallExpression (at_ 63 70) (Identifier (at_ 63 64) "t")
                [StringLiteral (at_ 65 69) "k1"]) ]);
      FunctionDeclaration (at_ 73 128) (Identifier (at_ 82 83) "B")
        []
        (BlockStatement (at_ 86 128)
          [ VariableDeclaration (at_ 88 118) V_const
              [ VariableDeclarator (at_ 94 117) (Identifier (at_ 94 95) "t")
                  (Some (CallExpression (at_ 98 117)
                          (Identifier (at_ 98 113) "useTranslations")
                          [StringLiteral (at_ 114 116) ""])) ];
            ExpressionStatement (at_ 119 126)
              (CallExpression (at_ 119 126) (Identifier (at_ 119 120) "t")
                [StringLiteral (at_ 121 125) "k2"]) ]);
      FunctionDeclaration (at_ 129 189) (Identifier (at_ 138 139) "C")
        []
        (BlockStatement (at_ 142 189)
          [ VariableDeclaration (at_ 144 179) V_const
              [ VariableDeclarator (at_ 150 178) (Identifier (at_ 150 151) "t")
                  (Some (CallExpression (at_ 154 178)
                          (Identifier (at_ 154 169) "useTranslations")
                          [StringLiteral (at_ 170 177) "third"])) ];
            ExpressionStatement (at_ 180 187)
              (CallExpression (at_ 180 187) (Identifier (at_ 180 181) "t")
                [StringLiteral (at_ 182 186) "k3"]) ]) ].

(** An import under a string name, and a module that exports no such name:
    its only export declaration binds [first] by destructuring. *)
Definition unnamed_import_source : string :=
  "import { 'x' as NS } from './m'; const t = useTranslations(NS)".
Definition unnamed_import_ast : node :=
  Program (at_ 0 62)
    [ ImportDeclaration (at_ 0 32)
        [ ImportSpecifier (at_ 9 18) (StringLiteral (at_ 9 12) "x")
            (Identifier (at_ 16 18) "NS") ]
        "./m";
      VariableDeclaration (at_ 33 62) V_const
        [ VariableDeclarator (at_ 39 62) (Identifier (at_ 39 40) "t")
            (Some (CallExpression (at_ 43 62)
                    (Identifier (at_ 43 58) "useTranslations")
                    [Identifier (at_ 59 61) "NS"])) ] ].
Definition unnamed_export_source : string :=
  "export const [first] = 'lit'".
Definition unnamed_export_ast : node :=
  Program (at_ 0 28)
    [ ExportNamedDeclaration (at_ 0 28)
        (Some (VariableDeclaration (at_ 7 28) V_const
                [ VariableDeclarator (at_ 13 28)
                    (ArrayPattern (at_ 13 20) [Some (Identifier (at_ 14 19) "first")])
                    (Some (StringLiteral (at_ 23 28) "lit")) ])) ].

(** A parser that knows these sources and throws on any other text. *)
Definition furtherParse (code : string) : ParseResult :=
  default Throws
    (Parsed <$>
       list_to_map (M := gmap string node)
         [ (sections_source, sections_ast);
           (shadowed_source, shadowed_ast);
           (unnamed_import_source, unnamed_import_ast);
           (unnamed_export_source, unnamed_export_ast) ] !! code).

(** The resolver that serves the module [./m] of the import above. *)
Definition unnamedImporter : Importer :=
  fun path => if String.eqb path "./m" then Some unnamed_export_source else None.

(** A file system for the page [/app/page.tsx]: the module
    [/app/constants.ts] beside it and the directory [/app/lib] with its index
    module; reading the directory throws. *)
Definition exampleDirname (path : string) : string := "/app".
Definition examplePathResolve (dir importPath : string) : string :=
  dir +:+ slice 1 importPath.
Definition examplePathJoin (parts : list string) : string := String.concat "/" parts.
Definition exampleExistsSync (path : string) : bool :=
  bool_decide (path ∈ ["/app/constants.ts"; "/app/lib"; "/app/lib/index.ts"]).
Definition exampleReadSync (path : string) : option string :=
  if String.eqb path "/app/constants.ts" then Some constants_source
  else if String.eqb path "/app/lib/index.ts" then Some "export const A = 'a'"
  else None.

(** The matches of the [namespace:] pattern in the text
    [{ namespace: 'auth' ], which does not parse. *)
Definition exampleNamespaceMatches (text : string) : list (nat * string) :=
  if String.eqb text "{ namespace: 'auth' " then [(2, "auth")] else [].


Section Analyzer.

(** Babel's parser. *)
Context (parse : string -> ParseResult).

(** [parseCode]: the tree, or [null] when the parser throws. *)
Definition parseCode (code : string) : option node :=
  match parse code with
  | Parsed ast => Some ast
  | Throws => None
  end.

(** The value of a named import: the module text is fetched and parsed, and
    every matching exported declarator assigns [importedValue]. *)
Definition foldImported (self : option node -> Scope -> option Importer -> ResolvedValue)
    (specifier : NodePath) (importer : option Importer) : ResolvedValue :=
  match path_node specifier, path_parent specifier with
  | ImportSpecifier _ imported _, Some (mkTreePath (ImportDeclaration _ _ source) _) =>
      let importedName := name_of imported in
      match importer with
      | Some importer =>
          match importer source with
          | Some code =>
              if truthy (Some code) then
                match parseCode code with
                | Some subAst =>
                    fold_left (fun importedValue init => self init [] None)
                      (exportedInits subAst importedName) dynamic
                | None => dynamic
                end
              else dynamic
          | None => dynamic
          end
      | None => dynamic
      end
  | _, _ => dynamic
  end.

(** Rules 1 to 5 of [foldConstant], on the unwrapped node and below the depth
    guard.  [self] stands for [foldConstant(_, _, _, depth + 1)]. *)
Definition foldNode (self : option node -> Scope -> option Importer -> ResolvedValue)
    (n : node) (scope : Scope) (importer : option Importer) : ResolvedValue :=
  match n with
  (* 1. Literals *)
  | StringLiteral _ v => resolved (VString v)
  | TemplateLiteral _ quasis [] => resolved (VString (or_empty (mjoin (quasis !! 0))))
  (* 2. Arrays *)
  | ArrayExpression _ elements => foldArray (fun el => self el scope importer) elements
  (* 3. Identifiers *)
  | Identifier _ name =>
      match getBinding scope name with
      | None => dynamic
      | Some binding =>
          if decide (binding_kind binding = K_module) then
            if isImportSpecifier (path_node (binding_path binding))
            then foldImported self (binding_path binding) importer
            else dynamic
          else if isVariableDeclarator (path_node (binding_path binding)) then
            let init := init_of (path_node (binding_path binding)) in
            self (unwrapInit <$> init) scope importer
          else dynamic
      end
  (* 4. Template literals with expressions *)
  | TemplateLiteral _ quasis expressions =>
      match foldTemplate (fun expr => self expr scope importer) quasis expressions [] with
      | Some resolvedParts => resolved (VString (join resolvedParts))
      | None => dynamic
      end
  (* 5. Binary expressions *)
  | BinaryExpression _ operator l r =>
      if String.eqb operator "+" then
        let left := self (Some l) scope importer in
        let right := self (Some r) scope importer in
        match resolvedString left, resolvedString right with
        | Some a, Some b => resolved (VString (a +:+ b))
        | _, _ => dynamic
        end
      else dynamic
  | _ => dynamic
  end.

(** [foldConstant(node, scope, importer, depth)]: an absent node is dynamic;
    the type wrappers are removed; beyond depth 5 the result is dynamic.
    Every recursive call is made at [depth + 1], below the guard. *)
Equations? foldConstant (n : option node) (scope : Scope) (importer : option Importer)
    (depth : nat) : ResolvedValue by wf (6 - depth) lt :=
foldConstant None _ _ _ := dynamic;
foldConstant (Some n) scope importer depth with le_gt_dec depth 5 := {
  | right _ := dynamic
  | left _ :=
      foldNode (fun n' scope' importer' => foldConstant n' scope' importer' (S depth))
        (unwrapTS n) scope importer }.
Proof. lia. Qed.

(** [resolveNamespaceFromCall(callExpr, scope, importer, fileName, line)] *)
Definition resolveNamespaceFromCall (callExpr : node) (scope : Scope)
    (importer : option Importer) (fileName : string) (line : nat)
  : NamespaceResolution.t :=
  match arguments_of callExpr !! 0 with
  | None =>
      NamespaceResolution.mk None true
        (Some ("<no-namespace:" +:+ fileName +:+ ":L" +:+ pretty line +:+ ">"))
  | Some firstArg =>
      let res := foldConstant (Some firstArg) scope importer 0 in
      match resolvedString res with
      | Some s => NamespaceResolution.mk (Some s) false None
      | None =>
          let unresolved :=
            NamespaceResolution.mk None true
              (Some ("<dynamic:" +:+ fileName +:+ ":L" +:+ pretty line +:+ ">")) in
          match firstArg with
          | TemplateLiteral _ quasis ((_ :: _) as expressions) =>
              match foldTemplate (fun expr => foldConstant expr scope importer 0)
                      quasis expressions [] with
              | Some resolvedParts =>
                  NamespaceResolution.mk (Some (join resolvedParts)) false None
              | None => unresolved
              end
          | _ => unresolved
          end
      end
  end.

(** Node's [path.basename]. *)
Context (basename : string -> string).

(** The [VariableDeclarator] visitor of [analyzeUseTranslations]: what it
    pushes on [results]. *)
Definition visitVariableDeclarator (fileName : string) (importer : option Importer)
    (nodePath : NodePath) : list UseTranslationsAnalysis.t :=
  match path_node nodePath with
  | VariableDeclarator loc (Identifier _ variableName) init =>
      match awaited init with
      | Some (CallExpression _ callee _ as callExpr) =>
          let functionName :=
            match callee with
            | Identifier _ x => Some x
            | MemberExpression _ _ (Identifier _ x) => Some x
            | _ => None
            end in
          if isAccessor functionName then
            let r := resolveNamespaceFromCall callExpr (path_scope nodePath) importer
                       fileName (line loc) in
            [UseTranslationsAnalysis.mk variableName
               (NamespaceResolution.namespace r)
               (NamespaceResolution.isDynamic r)
               (NamespaceResolution.dynamicPlaceholder r)
               (mkLoc (start loc) (end_ loc) (line loc))]
          else []
      | _ => []
      end
  | _ => []
  end.

(** [analyzeUseTranslations(code, filePath, importer)] *)
Definition analyzeUseTranslations (code : string) (filePath : option string)
    (importer : option Importer) : list UseTranslationsAnalysis.t :=
  match parseCode code with
  | None => []
  | Some ast =>
      let fileName := if truthy filePath then basename (default "" filePath) else "unknown" in
      fold_left (fun results nodePath =>
                   results ++ visitVariableDeclarator fileName importer nodePath)
        (traverse ast isVariableDeclarator) []
  end.

(** Scope-based resolution of the namespace of [variableName]. *)
Definition scopeNamespace (scope : Scope) (importer : option Importer)
    (variableName : string) : option string :=
  match getBinding scope variableName with
  | Some binding =>
      match awaited (init_of (path_node (binding_path binding))) with
      | Some (CallExpression _ callee _ as callExpr) =>
          let fnName := or_else (name_of callee) (property_of callee ≫= name_of) in
          if isAccessor fnName then
            let bindingScope := path_scope (binding_path binding) in
            let res := resolveNamespaceFromCall callExpr bindingScope importer "unknown" 0 in
            if truthy (NamespaceResolution.namespace res)
            then NamespaceResolution.namespace res
            else None
          else None
      | _ => None
      end
  | None => None
  end.

(** The namespace of a lookup through [variableName]: the scope-based one,
    else the entry of the fallback map. *)
Definition lookupNamespace (varNamespaceMap : gmap string string) (scope : Scope)
    (importer : option Importer) (variableName : string) : option string :=
  let namespace := scopeNamespace scope importer variableName in
  if negb (truthy namespace) && bool_decide (is_Some (varNamespaceMap !! variableName))
  then varNamespaceMap !! variableName
  else namespace.

(** The keys a lookup call emits for its first argument (rules 1 to 3). *)
Definition keysToEmit (scope : Scope) (importer : option Importer) (firstArg : node)
  : list string :=
  let valRes := foldConstant (Some firstArg) scope importer 0 in
  match resolvedString valRes with
  | Some s => [s]
  | None =>
      match firstArg with
      | Identifier _ name =>
          match getBinding scope name ≫= mapCallObject with
          | Some object =>
              let arrayRes := foldConstant (Some object) scope importer 0 in
              match isDynamic arrayRes, value arrayRes with
              | false, Some (VStrings ((_ :: _) as values)) => values
              | _, _ => []
              end
          | None => []
          end
      | MemberExpression _ (Identifier _ objectName) (Identifier _ propertyName) =>
          if truthy (Some objectName) then
            match getBinding scope objectName ≫= mapCallObject with
            | Some object =>
                let arrayRes := foldConstant (Some object) scope importer 0 in
                match isDynamic arrayRes, value arrayRes with
                | false, Some (VRecords ((_ :: _) as values)) =>
                    omap (fun item : gmap string string =>
                            readProperty item propertyName) values
                | _, _ => []
                end
            | None => []
            end
          else []
      | _ => []
      end
  end.

(** The second half of the [CallExpression] visitor, from the namespace
    resolution on: what a call through [variableName] pushes on [results]. *)
Definition emitKeys (varNamespaceMap : gmap string string) (importer : option Importer)
    (scope : Scope) (variableName : string) (arguments : list node)
  : list AnalyzedKey.t :=
  let namespace := lookupNamespace varNamespaceMap scope importer variableName in
  if negb (truthy namespace)
     && negb (bool_decide (is_Some (varNamespaceMap !! variableName)))
  then []
  else
    match arguments !! 0 with
    | None => []
    | Some firstArg =>
        let locationNode := firstArg in
        (fun key =>
           let fullKey :=
             if truthy namespace
             then default "" namespace +:+ "." +:+ key
             else key in
           AnalyzedKey.mk fullKey
             (start (node_loc locationNode))
             (end_ (node_loc locationNode))
             (match firstArg with
              | StringLiteral _ _ | TemplateLiteral _ _ _ => true
              | _ => false
              end)
             variableName namespace)
        <$> keysToEmit scope importer firstArg
    end.

(** The [CallExpression] visitor of [analyzeTranslationUsages]: the variable
    and method name of the callee, the method filter, then [emitKeys]. *)
Definition visitCallExpression (varNamespaceMap : gmap string string)
    (importer : option Importer) (nodePath : NodePath) : list AnalyzedKey.t :=
  match path_node nodePath with
  | CallExpression _ callee arguments =>
      let target : option (string * option string) :=
        match callee with
        | Identifier _ x => Some (x, None)
        | MemberExpression _ (Identifier _ x) property => Some (x, name_of property)
        | _ => None
        end in
      match target with
      | Some (variableName, methodName) =>
          if truthy methodName
             && negb (bool_decide (default "" methodName ∈ ["rich"; "markup"; "raw"]))
          then []
          else if negb (truthy (Some variableName)) then []
          else emitKeys varNamespaceMap importer (path_scope nodePath) variableName arguments
      | None => []
      end
  | _ => []
  end.

(** [analyzeTranslationUsages(code, varNamespaceMap, importer)] *)
Definition analyzeTranslationUsages (code : string) (varNamespaceMap : gmap string string)
    (importer : option Importer) : list AnalyzedKey.t :=
  match parseCode code with
  | None => []
  | Some ast =>
      fold_left (fun results nodePath =>
                   results ++ visitCallExpression varNamespaceMap importer nodePath)
        (traverse ast isCallExpression) []
  end.

(** ** The framework's [detectKeys] (src/frameworks/next-intl.ts)

    The part after the document's text, path and resolver are obtained: the
    variable-to-namespace map built from accessor discovery, then usage
    discovery with that map. *)

Definition namespaceMap (translationsAnalysis : list UseTranslationsAnalysis.t)
  : gmap string string :=
  fold_left
    (fun varNamespaceMap analysis =>
       if truthy (UseTranslationsAnalysis.namespace analysis)
       then <[UseTranslationsAnalysis.variableName analysis :=
                default "" (UseTranslationsAnalysis.namespace analysis)]> varNamespaceMap
       else varNamespaceMap)
    translationsAnalysis ∅.

Definition detectKeys (text : string) (filePath : string) (importer : Importer)
  : list (string * nat * nat * bool) :=
  let translationsAnalysis := analyzeUseTranslations text (Some filePath) (Some importer) in
  let varNamespaceMap := namespaceMap translationsAnalysis in
  let analyzedKeys := analyzeTranslationUsages text varNamespaceMap (Some importer) in
  (fun ak => (AnalyzedKey.key ak, AnalyzedKey.start ak, AnalyzedKey.end_ ak,
              AnalyzedKey.quoted ak)) <$> analyzedKeys.

(** ** The framework's [getScopeRange]

    [varNamespaceMap] and [dynamicVars] are filled in one loop over the
    analyses; the combined map is the resolved map overwritten by the dynamic
    one.  The matches of the fallback pattern ([text.matchAll], each with its
    index and first group) are given by [namespaceMatches].  As for
    [detectKeys], the document is one of the framework's languages; for any
    other both functions return before they read the text. *)

Definition scopeRangeMaps (translationsAnalysis : list UseTranslationsAnalysis.t)
  : gmap string string * gmap string string :=
  fold_left
    (fun '(varNamespaceMap, dynamicVars) analysis =>
       if UseTranslationsAnalysis.isDynamic analysis then
         if truthy (UseTranslationsAnalysis.dynamicPlaceholder analysis)
         then (varNamespaceMap,
               <[UseTranslationsAnalysis.variableName analysis :=
                   default "" (UseTranslationsAnalysis.dynamicPlaceholder analysis)]>
                 dynamicVars)
         else (varNamespaceMap, dynamicVars)
       else if truthy (UseTranslationsAnalysis.namespace analysis)
       then (<[UseTranslationsAnalysis.variableName analysis :=
                 default "" (UseTranslationsAnalysis.namespace analysis)]> varNamespaceMap,
             dynamicVars)
       else (varNamespaceMap, dynamicVars))
    translationsAnalysis (∅, ∅).

(** The range of a usage that carries a non-empty namespace. *)
Definition usageRange (usage : AnalyzedKey.t) : option ScopeRange.t :=
  if truthy (AnalyzedKey.namespace usage)
  then Some (ScopeRange.mk (AnalyzedKey.start usage) (AnalyzedKey.end_ usage)
               (default "" (AnalyzedKey.namespace usage)))
  else None.

Context (namespaceMatches : string -> list (nat * string)).

Definition getScopeRange (text : string) (filePath : string) (importer : Importer)
  : list ScopeRange.t :=
  let translationsAnalysis := analyzeUseTranslations text (Some filePath) (Some importer) in
  let '(varNamespaceMap, dynamicVars) := scopeRangeMaps translationsAnalysis in
  let ranges :=
    if Nat.ltb 0 (size varNamespaceMap) || Nat.ltb 0 (size dynamicVars) then
      let combinedMap := dynamicVars ∪ varNamespaceMap in
      let usages := analyzeTranslationUsages text combinedMap (Some importer) in
      omap usageRange usages
    else [] in
  match ranges with
  | [] =>
      match last (namespaceMatches text) with
      | Some (index, namespace) => [ScopeRange.mk index (String.length text) namespace]
      | None => []
      end
  | _ => ranges
  end.

(** ** The framework's [createImporter]

    Node's [path.dirname], [path.resolve] and [path.join], [fs.existsSync]
    and the repository's [File.readSync] (no text when it throws) are given;
    [fsPath] is the path of the document and [wsFolder] that of its workspace
    folder, when it has one. *)

Context (dirname : string -> string) (pathResolve : string -> string -> string)
  (pathJoin : list string -> string)
  (existsSync : string -> bool) (readSync : string -> option string).

(** [for (const ext of extensions)]: the first candidate that exists is read,
    and the loop ends there. *)
Fixpoint readFirstExisting (resolvedPath : string) (exts : list string) : option string :=
  match exts with
  | [] => None
  | ext :: rest =>
      if existsSync (resolvedPath +:+ ext) then readSync (resolvedPath +:+ ext)
      else readFirstExisting resolvedPath rest
  end.

Definition createImporter (fsPath : string) (wsFolder : option string) : Importer :=
  fun importPath =>
    let dir := dirname fsPath in
    if startsWith "." importPath then
      readFirstExisting (pathResolve dir importPath) extensions
    else if startsWith "@/" importPath then
      let resolvedPath :=
        match wsFolder with
        | Some root =>
            let possiblePaths :=
              [ pathJoin [root; slice 2 importPath];
                pathJoin [root; "src"; slice 2 importPath] ] in
            let found :=
              default ""
                (find (fun p => existsSync p || existsSync (p +:+ ".ts")
                                || existsSync (p +:+ ".tsx")
                                || existsSync (p +:+ "/index.ts")) possiblePaths) in
            if String.eqb found "" then default "" (possiblePaths !! 0) else found
        | None => ""
        end in
      readFirstExisting resolvedPath extensions
    else None.

(** * Properties *)

(** ** The constant folder *)

Lemma foldConstant_below (n : node) (scope : Scope) (importer : option Importer)
    (depth : nat) :
  depth <= 5 ->
  foldConstant (Some n) scope importer depth =
  foldNode (fun n' scope' importer' => foldConstant n' scope' importer' (S depth))
    (unwrapTS n) scope importer.
Proof.
  intros Hd. rewrite foldConstant_equation_1. unfold foldConstant_unfold_clause_2.
  destruct (le_gt_dec depth 5); [reflexivity | lia].
Qed.

Lemma foldConstant_beyond (n : option node) (scope : Scope) (importer : option Importer)
    (depth : nat) :
  5 < depth -> foldConstant n scope importer depth = dynamic.
Proof.
  intros Hd. destruct n as [n|]; [|apply foldConstant_equation_2].
  rewrite foldConstant_equation_1. unfold foldConstant_unfold_clause_2.
  destruct (le_gt_dec depth 5); [lia | reflexivity].
Qed.

Lemma unwrapTS_unwrapInit (n : node) : unwrapTS (unwrapInit n) = unwrapTS n.
Proof.
  induction n; simpl; auto.
Qed.

Lemma aliasChain_unwrapInit (scope : Scope) (len : nat) (n : node) :
  aliasChain scope len (unwrapInit n) = aliasChain scope len n.
Proof.
  destruct len; simpl; [reflexivity|]. now rewrite unwrapTS_unwrapInit.
Qed.

Lemma aliasChain_dynamic (scope : Scope) (importer : option Importer) (len : nat) :
  forall (n : node) (depth : nat),
    aliasChain scope len n = true -> 5 < depth + len ->
    foldConstant (Some n) scope importer depth = dynamic.
Proof.
  induction len as [|len IH]; intros n depth Hchain Hlen.
  - apply foldConstant_beyond. lia.
  - destruct (le_gt_dec depth 5) as [Hd|Hd]; [|apply foldConstant_beyond; lia].
    rewrite foldConstant_below by exact Hd.
    simpl in Hchain.
    destruct (unwrapTS n); try discriminate. simpl.
    destruct (getBinding scope name) as [binding|]; [|discriminate].
    apply andb_prop in Hchain as [Hkind Hinit].
    apply negb_true_iff, bool_decide_eq_false in Hkind.
    destruct (decide (binding_kind binding = K_module)); [contradiction|].
    destruct (path_node (binding_path binding)); try discriminate.
    destruct init as [init|]; [|discriminate]. simpl.
    apply IH; [now rewrite aliasChain_unwrapInit | lia].
Qed.

(** C7: the fold is a total function that satisfies the recursion of the
    source on every input, each recursive call being made one level deeper;
    beyond depth 5 it is dynamic whatever the node, scope and resolver; and
    an identifier that starts a chain of more than 5 aliases folds to
    dynamic. *)
Theorem foldConstant_depth_bounded :
  (forall n scope importer depth,
      foldConstant n scope importer depth =
      match n with
      | None => dynamic
      | Some n =>
          if Nat.ltb 5 depth then dynamic
          else foldNode (fun n' scope' importer' =>
                           foldConstant n' scope' importer' (depth + 1))
                 (unwrapTS n) scope importer
      end) /\
  (forall n scope importer depth,
      5 < depth -> foldConstant n scope importer depth = dynamic) /\
  (forall scope importer len n,
      aliasChain scope len n = true -> 5 < len ->
      foldConstant (Some n) scope importer 0 = dynamic).
Proof.
  split; [|split].
  - intros [n|] scope importer depth; [|apply foldConstant_equation_2].
    destruct (Nat.ltb_spec 5 depth) as [Hd|Hd].
    + now apply foldConstant_beyond.
    + rewrite foldConstant_below by exact Hd. now rewrite Nat.add_1_r.
  - intros. now apply foldConstant_beyond.
  - intros scope importer len n Hchain Hlen.
    now apply (aliasChain_dynamic scope importer len n 0).
Qed.

(** *** Shape of the result *)

Lemma hasShape_dynamic : hasShape dynamic.
Proof. split; [discriminate | reflexivity]. Qed.

Lemma hasShape_resolved (v : Value) : hasShape (resolved v).
Proof.
  split; [intros _ | discriminate].
  destruct v; simpl; eauto.
Qed.

Create HintDb shape.
#[local] Hint Resolve hasShape_dynamic hasShape_resolved : shape.

Lemma fold_left_assign {A B : Type} (f : B -> A) (l : list B) (d : A) :
  fold_left (fun _ x => f x) l d = from_option f d (last l).
Proof.
  induction l as [|x l _] using rev_ind; [reflexivity|].
  now rewrite fold_left_app, last_snoc.
Qed.

Lemma foldArray_hasShape (self : option node -> ResolvedValue)
    (elements : list (option node)) :
  hasShape (foldArray self elements).
Proof.
  unfold foldArray. destruct (type_ _); auto with shape.
Qed.

Lemma foldImported_hasShape
    (self : option node -> Scope -> option Importer -> ResolvedValue)
    (specifier : NodePath) (importer : option Importer) :
  (forall n scope' importer', hasShape (self n scope' importer')) ->
  hasShape (foldImported self specifier importer).
Proof.
  intros Hself. unfold foldImported.
  repeat case_match; auto with shape.
  rewrite fold_left_assign. destruct (last _); simpl; auto with shape.
Qed.

Lemma foldNode_hasShape
    (self : option node -> Scope -> option Importer -> ResolvedValue)
    (n : node) (scope : Scope) (importer : option Importer) :
  (forall n' scope' importer', hasShape (self n' scope' importer')) ->
  hasShape (foldNode self n scope importer).
Proof.
  intros Hself. destruct n; simpl; auto with shape.
  - destruct (getBinding scope name) as [binding|]; auto with shape.
    repeat case_match; auto using foldImported_hasShape with shape.
  - destruct expressions; [auto with shape|].
    destruct (foldTemplate _ _ _ _); auto with shape.
  - apply foldArray_hasShape.
  - repeat case_match; auto with shape.
Qed.

Lemma foldConstant_hasShape (n : option node) (scope : Scope)
    (importer : option Importer) (depth : nat) :
  hasShape (foldConstant n scope importer depth).
Proof.
  remember (6 - depth) as budget eqn:Hbudget.
  revert n scope importer depth Hbudget.
  induction budget as [|budget IH]; intros n scope importer depth Hbudget.
  - rewrite foldConstant_beyond by lia. apply hasShape_dynamic.
  - destruct n as [n|]; [|rewrite foldConstant_equation_2; apply hasShape_dynamic].
    rewrite foldConstant_below by lia.
    apply foldNode_hasShape. intros n' scope' importer'. apply IH. lia.
Qed.

(** C9: whatever the node, scope, resolver and depth, a result that is not
    dynamic carries a value, which is a string, an array of strings or an
    array of string-keyed records, and a dynamic result carries none. *)
Theorem foldConstant_result_invariant (n : option node) (scope : Scope)
    (importer : option Importer) (depth : nat) :
  let r := foldConstant n scope importer depth in
  (isDynamic r = false ->
   (exists s : string, value r = Some (VString s)) \/
   (exists l : list string, value r = Some (VStrings l)) \/
   (exists l : list (gmap string string), value r = Some (VRecords l))) /\
  (isDynamic r = true -> value r = None).
Proof. exact (foldConstant_hasShape n scope importer depth). Qed.

(** *** Named imports *)

Lemma foldConstant_empty_scope (loc : Loc) (name : string)
    (importer : option Importer) (depth : nat) :
  foldConstant (Some (Identifier loc name)) [] importer depth = dynamic.
Proof.
  destruct (le_gt_dec depth 5) as [Hd|Hd]; [|apply foldConstant_beyond; lia].
  now rewrite foldConstant_below by exact Hd.
Qed.

(** An identifier bound to a named import folds to the value of the last
    matching exported declarator of the module text the resolver gives for
    the import source, that initializer being folded in the empty scope,
    without resolver, one level deeper. *)
Lemma foldConstant_import_specifier (scope : Scope) (importer : option Importer)
    (depth : nat) (loc : Loc) (name : string) (binding : Binding)
    (sl : Loc) (imported local_ : node) (dl : Loc) (specifiers : list node)
    (source : string) (parent : option TreePath) :
  depth <= 5 ->
  getBinding scope name = Some binding ->
  binding_kind binding = K_module ->
  path_node (binding_path binding) = ImportSpecifier sl imported local_ ->
  path_parent (binding_path binding)
    = Some (mkTreePath (ImportDeclaration dl specifiers source) parent) ->
  foldConstant (Some (Identifier loc name)) scope importer depth =
    match importer with
    | None => dynamic
    | Some resolver =>
        match resolver source with
        | None => dynamic
        | Some code =>
            if String.eqb code "" then dynamic
            else
              match parseCode code with
              | None => dynamic
              | Some subAst =>
                  match last (exportedInits subAst (name_of imported)) with
                  | None => dynamic
                  | Some init => foldConstant init [] None (S depth)
                  end
              end
        end
    end
  /\ (forall l x importer' depth',
        foldConstant (Some (Identifier l x)) [] importer' depth' = dynamic)
  /\ (forall resolver resolver' : Importer,
        resolver source = resolver' source ->
        foldConstant (Some (Identifier loc name)) scope (Some resolver) depth
        = foldConstant (Some (Identifier loc name)) scope (Some resolver') depth).
Proof.
  intros Hd Hb Hk Hn Hp.
  assert (forall importer,
             foldConstant (Some (Identifier loc name)) scope importer depth =
             match importer with
             | None => dynamic
             | Some resolver =>
                 match resolver source with
                 | None => dynamic
                 | Some code =>
                     if String.eqb code "" then dynamic
                     else
                       match parseCode code with
                       | None => dynamic
                       | Some subAst =>
                           match last (exportedInits subAst (name_of imported)) with
                           | None => dynamic
                           | Some init => foldConstant init [] None (S depth)
                           end
                       end
                 end
             end) as Hfold.
  { intros importer'.
    rewrite foldConstant_below by exact Hd. simpl. rewrite Hb.
    destruct (decide (binding_kind binding = K_module)); [|contradiction].
    rewrite Hn. simpl. unfold foldImported. rewrite Hn, Hp.
    destruct importer' as [resolver|]; [|reflexivity].
    destruct (resolver source) as [code|]; [|reflexivity].
    simpl. destruct (String.eqb code ""); simpl; [reflexivity|].
    destruct (parseCode code) as [subAst|]; [|reflexivity].
    rewrite fold_left_assign. now destruct (last _). }
  split; [apply Hfold|]. split; [intros; apply foldConstant_empty_scope|].
  intros resolver resolver' Hsame. now rewrite !Hfold, Hsame.
Qed.

(** *** The export declarations of a module *)

Lemma exports_app (a b : list NodePath) : exports (a ++ b) = exports a ++ exports b.
Proof. apply filter_app. Qed.

Lemma exports_cons (p : NodePath) (l : list NodePath) :
  isExportNamedDeclaration (path_node p) = false -> exports (p :: l) = exports l.
Proof.
  intros H. unfold exports. rewrite filter_cons_False; [reflexivity|].
  rewrite H. discriminate.
Qed.



Ltac list_exports IH children H :=
  assert (forall p (sc : node -> Scope),
             exports (flat_map (fun c => walk p (sc c) c) children) = [])
    by (clear -IH H;
        induction children as [|c cs IHcs]; intros p sc; simpl; [reflexivity|];
        simpl in H; apply andb_prop in H as [Hc Hcs];
        rewrite exports_app, (IH c p (sc c) Hc); apply (IHcs Hcs));
  assert (forall p sc, exports (flat_map (walk p sc) children) = [])
    by (clear -IH H;
        induction children as [|c cs IHcs]; intros p sc; simpl; [reflexivity|];
        simpl in H; apply andb_prop in H as [Hc Hcs];
        rewrite exports_app, (IH c p sc Hc); apply (IHcs Hcs)).

Ltac option_list_exports IH elements H :=
  assert (forall p sc,
             exports (flat_map (fun o : option node =>
                                  match o with Some c => walk p sc c | None => [] end)
                        elements) = [])
    by (clear -IH H;
        induction elements as [|[c|] cs IHcs]; intros p sc; simpl; [reflexivity| |];
        simpl in H; [apply andb_prop in H as [Hc Hcs];
                     rewrite exports_app, (IH c p sc Hc); apply (IHcs Hcs)
                    | apply (IHcs H)]).

Ltac child_exports IH :=
  repeat match goal with
         | H : forallb noExport ?cs = true |- _ =>
             list_exports IH cs H; clear H
         | H : forallb _ ?es = true |- _ =>
             option_list_exports IH es H; clear H
         | H : match ?o with Some _ => _ | None => true end = true |- _ =>
             destruct o
         | H : true = true |- _ => clear H
         | H : noExport ?c = true |- _ =>
             is_var c;
             assert (forall p sc, exports (walk p sc c) = [])
               by (intros; apply IH; exact H);
             revert H
         end; intros.

Ltac use_exports :=
  rewrite ?exports_cons by reflexivity; rewrite ?exports_app;
  repeat match goal with
         | H : forall p sc, exports _ = [] |- _ => rewrite !H; clear H
         end;
  try reflexivity.


Lemma block_exports (b : node) (p p' : option TreePath) (sc sc' : Scope) :
  (forall p sc, exports (walk p sc b) = []) ->
  match b with
  | BlockStatement _ stmts => forall p sc, exports (flat_map (walk p sc) stmts) = []
  | _ => True
  end ->
  exports match b with
          | BlockStatement _ stmts => mkNodePath b p sc :: flat_map (walk p' sc') stmts
          | _ => walk p sc b
          end = [].
Proof.
  intros Hb Hs. destruct b; try apply Hb.
  rewrite exports_cons by reflexivity. apply Hs.
Qed.

Lemma walk_noExport : forall (n : node) (parent : option TreePath) (scope : Scope),
  noExport n = true -> exports (walk parent scope n) = [].
Proof.
  fix IH 1. intros n parent scope Hn.
  destruct n; simpl in Hn; try discriminate;
    repeat match goal with
           | H : _ && _ = true |- _ => apply andb_prop in H as [? ?]
           end;
    child_exports IH; simpl; use_exports.
  all: simpl; apply block_exports; [assumption|];
    match goal with
    | H : noExport ?b = true |- match ?b with _ => _ end =>
        destruct b; try exact I; simpl in H; list_exports IH body H; assumption
    end.
Qed.

Lemma exports_cons_export (p : NodePath) (l : list NodePath) :
  isExportNamedDeclaration (path_node p) = true -> exports (p :: l) = p :: exports l.
Proof. intros H. unfold exports. now rewrite filter_cons_True. Qed.

Lemma named_declarators (name : string) (declarations : list node) :
  omap (fun decl =>
          match decl with
          | VariableDeclarator _ id init =>
              if decide (name_of id = Some name) then Some init else None
          | _ => None
          end) declarations
  = omap (fun decl =>
            match decl with
            | VariableDeclarator _ (Identifier _ x) init =>
                if decide (x = name) then Some init else None
            | _ => None
            end) declarations.
Proof.
  induction declarations as [|decl declarations IH]; [reflexivity|].
  cbn [omap list_omap]. rewrite IH.
  destruct decl; try reflexivity.
  destruct decl; simpl; try reflexivity.
  now repeat case_decide; simplify_eq.
Qed.

Lemma exportedInits_flat (l : Loc) (body : list node) (name : string) :
  flatExports body = true ->
  exportedInits (Program l body) (Some name) = namedInits name body.
Proof.
  intros Hflat. unfold exportedInits, traverse, namedInits.
  cbn [walk].
  change (filter _ ?paths) with (exports paths).
  rewrite exports_cons by reflexivity.
  generalize (Some (mkTreePath (Program l body) None)).
  generalize [programFrame (mkTreePath (Program l body) None) body].
  unfold flatExports in Hflat.
  induction body as [|stmt body IH]; intros sc p; [reflexivity|].
  simpl in Hflat. apply andb_prop in Hflat as [Hstmt Hbody].
  cbn [flat_map]. rewrite exports_app, flat_map_app, (IH Hbody). f_equal.
  destruct stmt; try (now rewrite walk_noExport by exact Hstmt).
  cbn [walk]. rewrite exports_cons_export by reflexivity.
  destruct declaration as [d|].
  - rewrite walk_noExport by exact Hstmt. cbn [flat_map path_node]. rewrite app_nil_r.
    destruct d; try reflexivity. apply named_declarators.
  - reflexivity.
Qed.

(** X24: for an import named by an identifier, when the resolver gives a
    non-empty text for the import source and that text parses to a module
    whose export declarations are statements of its body, the imported name
    folds to what the initializer of the last exported declarator of that
    name folds to in the empty scope, without resolver, one level deeper; and
    it is dynamic when the module exports no variable of that name, whatever
    else it exports. *)
Theorem named_import_resolution (scope : Scope) (resolver : Importer) (depth : nat)
    (loc : Loc) (x : string) (binding : Binding) (sl li : Loc) (imported : string)
    (local_ : node) (dl : Loc) (specifiers : list node) (source : string)
    (parent : option TreePath) (code : string) (l : Loc) (body : list node) :
  depth <= 5 ->
  getBinding scope x = Some binding ->
  binding_kind binding = K_module ->
  path_node (binding_path binding) = ImportSpecifier sl (Identifier li imported) local_ ->
  path_parent (binding_path binding)
    = Some (mkTreePath (ImportDeclaration dl specifiers source) parent) ->
  resolver source = Some code ->
  code <> "" ->
  parse code = Parsed (Program l body) ->
  flatExports body = true ->
  foldConstant (Some (Identifier loc x)) scope (Some resolver) depth
  = match last (namedInits imported body) with
    | Some init => foldConstant init [] None (S depth)
    | None => dynamic
    end.
Proof.
  intros Hd Hb Hk Hn Hp Hcode Hne Hparse Hflat.
  rewrite (proj1 (foldConstant_import_specifier scope (Some resolver) depth loc x binding
                    sl (Identifier li imported) local_ dl specifiers source parent
                    Hd Hb Hk Hn Hp)).
  rewrite Hcode. apply String.eqb_neq in Hne. rewrite Hne.
  unfold parseCode. rewrite Hparse. simpl name_of.
  now rewrite (exportedInits_flat _ _ _ Hflat).
Qed.

(** *** Concatenated namespaces *)

Lemma foldConstant_constantString (scope : Scope) (importer : option Importer)
    (loc : Loc) (x a : string) (depth : nat) :
  constantString scope x = Some a -> depth <= 4 ->
  foldConstant (Some (Identifier loc x)) scope importer depth = resolved (VString a).
Proof.
  unfold constantString. intros Hx Hd.
  rewrite foldConstant_below by lia. simpl.
  destruct (getBinding scope x) as [binding|]; [|discriminate].
  destruct (decide (binding_kind binding = K_module)); [discriminate|].
  destruct (path_node (binding_path binding)); try discriminate.
  destruct init as [init|]; [|discriminate].
  destruct init; try discriminate. injection Hx as ->. simpl.
  now rewrite foldConstant_below by lia.
Qed.

Lemma append_empty_r (s : string) : s +:+ "" = s.
Proof.
  induction s as [|c s IH]; [reflexivity|].
  change (String c s +:+ "") with (String c (s +:+ "")). now rewrite IH.
Qed.

(** C5: when [x] and [y] are bound to the string constants [a] and [b], a
    namespace-accessor call whose first argument is [x + y], or the template
    literal made of the two substitutions [x] and [y], resolves to the
    namespace [a ++ b], not dynamic. *)
Theorem concatenated_namespace (scope : Scope) (importer : option Importer)
    (fileName : string) (line : nat) (x y a b : string)
    (l l1 l2 lx ly : Loc) (callee : node) (rest : list node) :
  constantString scope x = Some a ->
  constantString scope y = Some b ->
  resolveNamespaceFromCall
    (CallExpression l callee
       (BinaryExpression l1 "+" (Identifier lx x) (Identifier ly y) :: rest))
    scope importer fileName line
  = NamespaceResolution.mk (Some (a +:+ b)) false None
  /\
  resolveNamespaceFromCall
    (CallExpression l callee
       (TemplateLiteral l2 [Some ""; Some ""; Some ""]
          [Identifier lx x; Identifier ly y] :: rest))
    scope importer fileName line
  = NamespaceResolution.mk (Some (a +:+ b)) false None.
Proof.
  intros Hx Hy. unfold resolveNamespaceFromCall. simpl. split.
  - rewrite foldConstant_below by lia. simpl.
    rewrite (foldConstant_constantString scope importer lx x a 1 Hx) by lia.
    rewrite (foldConstant_constantString scope importer ly y b 1 Hy) by lia.
    reflexivity.
  - rewrite foldConstant_below by lia. simpl.
    rewrite (foldConstant_constantString scope importer lx x a 1 Hx) by lia.
    rewrite (foldConstant_constantString scope importer ly y b 1 Hy) by lia.
    simpl. unfold join. simpl. now rewrite append_empty_r.
Qed.

(** The same when the combined expression is itself first assigned to a
    variable [z] that the accessor call takes. *)
Lemma concatenated_namespace_through_variable (scope : Scope)
    (importer : option Importer) (fileName : string) (line : nat)
    (x y z a b : string) (binding : Binding) (l l1 lx ly lz ld : Loc)
    (callee id : node) (rest : list node) :
  constantString scope x = Some a ->
  constantString scope y = Some b ->
  getBinding scope z = Some binding ->
  binding_kind binding <> K_module ->
  path_node (binding_path binding)
    = VariableDeclarator ld id
        (Some (BinaryExpression l1 "+" (Identifier lx x) (Identifier ly y))) ->
  resolveNamespaceFromCall (CallExpression l callee (Identifier lz z :: rest))
    scope importer fileName line
  = NamespaceResolution.mk (Some (a +:+ b)) false None.
Proof.
  intros Hx Hy Hz Hk Hn. unfold resolveNamespaceFromCall. simpl.
  rewrite foldConstant_below by lia. simpl. rewrite Hz.
  destruct (decide (binding_kind binding = K_module)); [contradiction|].
  rewrite Hn. simpl.
  rewrite foldConstant_below by lia. simpl.
  rewrite (foldConstant_constantString scope importer lx x a 2 Hx) by lia.
  rewrite (foldConstant_constantString scope importer ly y b 2 Hy) by lia.
  reflexivity.
Qed.

(** ** Usage discovery *)

Lemma truthy_Some (s : string) : truthy (Some s) = negb (String.eqb s "").
Proof. reflexivity. Qed.

Lemma foldConstant_StringLiteral (l : Loc) (s : string) (scope : Scope)
    (importer : option Importer) (depth : nat) :
  depth <= 5 ->
  foldConstant (Some (StringLiteral l s)) scope importer depth = resolved (VString s).
Proof. intros Hd. now rewrite foldConstant_below by exact Hd. Qed.

Lemma resolveNamespaceFromCall_literal (l la : Loc) (callee : node) (ns : string)
    (rest : list node) (scope : Scope) (importer : option Importer)
    (fileName : string) (line : nat) :
  resolveNamespaceFromCall (CallExpression l callee (StringLiteral la ns :: rest))
    scope importer fileName line
  = NamespaceResolution.mk (Some ns) false None.
Proof.
  unfold resolveNamespaceFromCall. simpl.
  now rewrite foldConstant_StringLiteral by lia.
Qed.

(** The scope-based namespace is read off the accessor call the variable is
    bound to, resolved in the scope of that binding. *)
Lemma scopeNamespace_binding (scope : Scope) (importer : option Importer)
    (v : string) (binding : Binding) (l : Loc) (callee : node) (args : list node) :
  getBinding scope v = Some binding ->
  awaited (init_of (path_node (binding_path binding)))
    = Some (CallExpression l callee args) ->
  isAccessor (or_else (name_of callee) (property_of callee ≫= name_of)) = true ->
  scopeNamespace scope importer v =
    let res := resolveNamespaceFromCall (CallExpression l callee args)
                 (path_scope (binding_path binding)) importer "unknown" 0 in
    if truthy (NamespaceResolution.namespace res)
    then NamespaceResolution.namespace res else None.
Proof.
  intros Hb Hinit Hacc. unfold scopeNamespace. now rewrite Hb, Hinit, Hacc.
Qed.

Lemma scopeNamespace_accessorLiteral (scope : Scope) (importer : option Importer)
    (v ns : string) :
  accessorLiteral scope v = Some ns ->
  scopeNamespace scope importer v = if String.eqb ns "" then None else Some ns.
Proof.
  unfold accessorLiteral. intros Hacc.
  destruct (getBinding scope v) as [binding|] eqn:Hb; [|discriminate].
  destruct (awaited _) as [callExpr|] eqn:Hinit; [|discriminate].
  destruct callExpr; try discriminate.
  destruct arguments as [|firstArg rest]; [discriminate|].
  destruct firstArg; try discriminate.
  destruct (isAccessor _) eqn:Hfn; [|discriminate]. injection Hacc as ->.
  rewrite (scopeNamespace_binding _ _ _ _ _ _ _ Hb Hinit Hfn).
  rewrite resolveNamespaceFromCall_literal. simpl. now destruct (String.eqb ns "").
Qed.

Lemma scopeNamespace_unbound (scope : Scope) (importer : option Importer) (v : string) :
  getBinding scope v = None -> scopeNamespace scope importer v = None.
Proof. intros Hb. unfold scopeNamespace. now rewrite Hb. Qed.

Lemma scopeNamespace_truthy (scope : Scope) (importer : option Importer) (v ns : string) :
  scopeNamespace scope importer v = Some ns -> String.eqb ns "" = false.
Proof.
  unfold scopeNamespace. intros H.
  repeat case_match; try discriminate.
  rewrite H in *. simpl in *. now apply negb_true_iff.
Qed.

Lemma lookupNamespace_scope (varNamespaceMap : gmap string string) (scope : Scope)
    (importer : option Importer) (v ns : string) :
  accessorLiteral scope v = Some ns -> String.eqb ns "" = false ->
  lookupNamespace varNamespaceMap scope importer v = Some ns.
Proof.
  intros Hacc Hns. unfold lookupNamespace.
  rewrite (scopeNamespace_accessorLiteral _ _ _ _ Hacc), Hns. simpl.
  now rewrite Hns.
Qed.

Lemma keysToEmit_literal (scope : Scope) (importer : option Importer) (l : Loc)
    (k : string) :
  keysToEmit scope importer (StringLiteral l k) = [k].
Proof. unfold keysToEmit. now rewrite foldConstant_StringLiteral by lia. Qed.

(** A call through a variable that has a namespace emits one key per local
    key, qualified by the namespace unless that is empty. *)
Lemma emitKeys_namespace (varNamespaceMap : gmap string string)
    (importer : option Importer) (scope : Scope) (v ns : string)
    (firstArg : node) (rest : list node) :
  lookupNamespace varNamespaceMap scope importer v = Some ns ->
  emitKeys varNamespaceMap importer scope v (firstArg :: rest) =
    (fun key =>
       AnalyzedKey.mk (qualified ns key)
         (start (node_loc firstArg)) (end_ (node_loc firstArg))
         (match firstArg with
          | StringLiteral _ _ | TemplateLiteral _ _ _ => true
          | _ => false
          end) v (Some ns))
    <$> keysToEmit scope importer firstArg.
Proof.
  intros Hns. unfold emitKeys. rewrite Hns. simpl.
  assert (negb (negb (String.eqb ns "")) &&
          negb (bool_decide (is_Some (varNamespaceMap !! v))) = false) as ->.
  { destruct (String.eqb ns "") eqn:Hempty; [|reflexivity]. simpl.
    apply negb_false_iff, bool_decide_eq_true.
    revert Hns. unfold lookupNamespace.
    destruct (scopeNamespace scope importer v) as [s|] eqn:Hs.
    - rewrite truthy_Some, (scopeNamespace_truthy _ _ _ _ Hs). simpl.
      intros [= ->]. rewrite (scopeNamespace_truthy _ _ _ _ Hs) in Hempty.
      discriminate.
    - simpl. case_bool_decide; [auto | discriminate]. }
  unfold qualified. now destruct (String.eqb ns "").
Qed.

Lemma emitKeys_unrecognised (varNamespaceMap : gmap string string)
    (importer : option Importer) (scope : Scope) (v : string) (args : list node) :
  getBinding scope v = None -> varNamespaceMap !! v = None ->
  emitKeys varNamespaceMap importer scope v args = [].
Proof.
  intros Hb Hm. unfold emitKeys, lookupNamespace.
  rewrite (scopeNamespace_unbound _ _ _ Hb), Hm.
  assert (bool_decide (is_Some (@None string)) = false) as ->
    by (apply bool_decide_eq_false; intros [? ?]; discriminate).
  reflexivity.
Qed.

Lemma visitCallExpression_lookupCallee (varNamespaceMap : gmap string string)
    (importer : option Importer) (l : Loc) (callee : node) (args : list node)
    (parent : option TreePath) (scope : Scope) (v : string) :
  lookupCallee callee = Some v ->
  visitCallExpression varNamespaceMap importer
    (mkNodePath (CallExpression l callee args) parent scope)
  = emitKeys varNamespaceMap importer scope v args.
Proof.
  unfold visitCallExpression, lookupCallee. simpl. intros Hc.
  destruct callee as [| | | | | | | | | | | |? x| | | | | | | |? object property| | | | | | | | | | | | | | |];
    try discriminate.
  - destruct x; [discriminate|]. now injection Hc as <-.
  - destruct object as [| | | | | | | | | | | |? x| | | | | | | | | | | | | | | | | | | | | | |];
      try discriminate.
    destruct x; [discriminate|]. simpl in Hc.
    destruct property as [| | | | | | | | | | | |? m| | | | | | | | | | | | | | | | | | | | | | |];
      try (now injection Hc as <-).
    case_bool_decide as Hm; [|discriminate]. injection Hc as <-.
    cbn [name_of default]. case_bool_decide; [|contradiction].
    now rewrite andb_false_r.
Qed.

(** An empty namespace that comes from the fallback map gives the bare keys. *)
Lemma fallback_empty_namespace_bare_keys (varNamespaceMap : gmap string string)
    (importer : option Importer) (scope : Scope) (v : string)
    (firstArg : node) (rest : list node) :
  scopeNamespace scope importer v = None ->
  varNamespaceMap !! v = Some "" ->
  AnalyzedKey.key <$> emitKeys varNamespaceMap importer scope v (firstArg :: rest)
  = keysToEmit scope importer firstArg.
Proof.
  intros Hs Hm.
  rewrite (emitKeys_namespace _ _ _ _ "").
  - rewrite <- list_fmap_compose. now rewrite list_fmap_id.
  - unfold lookupNamespace. rewrite Hs, Hm.
    now rewrite bool_decide_eq_true_2 by eauto.
Qed.

Lemma login_usages (varNamespaceMap : gmap string string)
    (importer : option Importer) :
  parse login_source = Parsed login_ast ->
  varNamespaceMap !! "useTranslations" = None ->
  analyzeTranslationUsages login_source varNamespaceMap importer
  = [AnalyzedKey.mk "auth.login.title" 37 50 true "t" (Some "auth")].
Proof.
  intros Hparse Hmap. unfold analyzeTranslationUsages, parseCode. rewrite Hparse.
  set (paths := traverse login_ast isCallExpression).
  vm_compute in paths. subst paths. cbn [fold_left app].
  rewrite (visitCallExpression_lookupCallee _ _ _ _ _ _ _ "useTranslations")
    by reflexivity.
  rewrite emitKeys_unrecognised by (exact Hmap || reflexivity).
  rewrite (visitCallExpression_lookupCallee _ _ _ _ _ _ _ "t") by reflexivity.
  rewrite (emitKeys_namespace _ _ _ _ "auth")
    by (apply lookupNamespace_scope; reflexivity).
  now rewrite keysToEmit_literal.
Qed.

Lemma login_accessors (filePath : option string) (importer : option Importer) :
  parse login_source = Parsed login_ast ->
  namespaceMap (analyzeUseTranslations login_source filePath importer)
  = {[ "t" := "auth" ]}.
Proof.
  intros Hparse. unfold analyzeUseTranslations, parseCode. rewrite Hparse.
  set (paths := traverse login_ast isVariableDeclarator).
  vm_compute in paths. subst paths. cbn [fold_left app].
  unfold visitVariableDeclarator. cbn [path_node awaited isAccessor].
  rewrite resolveNamespaceFromCall_literal. reflexivity.
Qed.

(** C1: for the source [const t = useTranslations('auth'); t('login.title')]
    usage discovery returns exactly one key, [auth.login.title], quoted:
    whatever the resolver and the fallback map, provided the map has no entry
    for the accessor's own name; and in particular with the map that
    [detectKeys] builds from the declarations of the same text. *)
Theorem login_title_key (varNamespaceMap : gmap string string)
    (filePath : string) (importer : option Importer) (resolver : Importer) :
  parse login_source = Parsed login_ast ->
  varNamespaceMap !! "useTranslations" = None ->
  analyzeTranslationUsages login_source varNamespaceMap importer
  = [AnalyzedKey.mk "auth.login.title" 37 50 true "t" (Some "auth")]
  /\ detectKeys login_source filePath resolver = [("auth.login.title", 37, 50, true)].
Proof.
  intros Hparse Hmap. split; [now apply login_usages|].
  unfold detectKeys. rewrite (login_accessors _ _ Hparse).
  now rewrite (login_usages _ _ Hparse) by reflexivity.
Qed.

(** *** Shadowed accessor variables *)

(** X23: a lookup [v('k')] through a variable whose declarator is
    initialised with an accessor call, awaited or not, on a non-empty string
    literal is qualified by the namespace of that declaration, whatever the
    fallback map holds for [v]: an entry that another function's declaration
    of the same name left in the map is not consulted. *)
Theorem own_declaration_namespace (varNamespaceMap : gmap string string)
    (importer : option Importer) (scope : Scope) (v : string) (binding : Binding)
    (ld : Loc) (id init : node) (lc ln : Loc) (callee : node) (ns : string)
    (rest : list node) (f : string) (l lv lk : Loc) (k : string) (args : list node)
    (parent : option TreePath) :
  v <> "" ->
  getBinding scope v = Some binding ->
  path_node (binding_path binding) = VariableDeclarator ld id (Some init) ->
  init = CallExpression lc callee (StringLiteral ln ns :: rest) \/
  (exists la, init = AwaitExpression la
                       (CallExpression lc callee (StringLiteral ln ns :: rest))) ->
  (exists lf, callee = Identifier lf f) \/
  (exists lf lp object, callee = MemberExpression lf object (Identifier lp f)) ->
  f = "useTranslations" \/ f = "getTranslations" ->
  ns <> "" ->
  visitCallExpression varNamespaceMap importer
    (mkNodePath (CallExpression l (Identifier lv v) (StringLiteral lk k :: args))
       parent scope)
  = [AnalyzedKey.mk (ns +:+ "." +:+ k) (start lk) (end_ lk) true v (Some ns)].
Proof.
  intros Hv Hb Hnode Hinit Hcallee Hf Hns.
  apply String.eqb_neq in Hv, Hns.
  rewrite (visitCallExpression_lookupCallee _ _ _ _ _ _ _ v)
    by (simpl; now rewrite Hv).
  assert (accessorLiteral scope v = Some ns) as Hacc.
  { unfold accessorLiteral. rewrite Hb, Hnode.
    assert (awaited (init_of (VariableDeclarator ld id (Some init)))
            = Some (CallExpression lc callee (StringLiteral ln ns :: rest))) as ->
      by (destruct Hinit as [-> | [la ->]]; reflexivity).
    assert (isAccessor (or_else (name_of callee) (property_of callee ≫= name_of)) = true)
      as ->; [|reflexivity].
    destruct Hcallee as [[lf ->] | (lf & lp & object & ->)]; simpl;
      destruct Hf as [-> | ->]; reflexivity. }
  rewrite (emitKeys_namespace _ _ _ _ ns)
    by (apply lookupNamespace_scope; [exact Hacc | exact Hns]).
  rewrite keysToEmit_literal. unfold qualified. now rewrite Hns.
Qed.

(** *** Map iteration *)

Lemma foldElements_stringLiterals (self : option node -> ResolvedValue)
    (elements : list (option node)) (elems : list string) :
  (forall l s, self (Some (StringLiteral l s)) = resolved (VString s)) ->
  stringLiterals elements = Some elems ->
  forall st, type_ st = T_unknown \/ type_ st = T_string ->
    foldElements self elements st =
    mkArrayState (match elems with [] => type_ st | _ => T_string end)
      (stringElements st ++ elems) (objectElements st).
Proof.
  intros Hself. revert elems.
  induction elements as [|el elements IH]; intros elems Hlits st Hst.
  - injection Hlits as <-. simpl. rewrite app_nil_r. now destruct st.
  - simpl in Hlits. destruct el as [el|]; [|discriminate].
    destruct el; try discriminate.
    destruct (stringLiterals elements) as [elems'|]; [|discriminate].
    injection Hlits as <-. simpl. rewrite Hself. simpl.
    assert (foldElements self elements
              (mkArrayState T_string (stringElements st ++ [value0]) (objectElements st))
            = mkArrayState T_string ((stringElements st ++ [value0]) ++ elems')
                (objectElements st)) as Hrest.
    { rewrite (IH elems' eq_refl) by (simpl; auto). simpl. now destruct elems'. }
    rewrite <- app_assoc in Hrest. simpl in Hrest.
    destruct Hst as [-> | ->]; exact Hrest.
Qed.

Lemma foldConstant_boundStringArray (scope : Scope) (importer : option Importer)
    (l : Loc) (x : string) (elems : list string) :
  boundStringArray scope x = Some elems ->
  foldConstant (Some (Identifier l x)) scope importer 0 =
    match elems with
    | [] => dynamic
    | _ => resolved (VStrings elems)
    end.
Proof.
  unfold boundStringArray. intros Hx.
  rewrite foldConstant_below by lia. simpl.
  destruct (getBinding scope x) as [binding|]; [|discriminate].
  destruct (decide (binding_kind binding = K_module)); [discriminate|].
  destruct (path_node (binding_path binding)); try discriminate.
  destruct init as [init|]; [|discriminate]. simpl.
  rewrite foldConstant_below by lia. rewrite unwrapTS_unwrapInit.
  destruct (unwrapTS init); try discriminate. simpl.
  unfold foldArray.
  rewrite (foldElements_stringLiterals _ _ elems) by
    (simpl; auto; intros; apply foldConstant_StringLiteral; lia).
  simpl. now destruct elems.
Qed.

Lemma keysToEmit_map_parameter (scope : Scope) (importer : option Importer)
    (lp : Loc) (p : string) (bp : Binding) (lX : Loc) (X : string)
    (elems : list string) :
  getBinding scope p = Some bp ->
  isVariableDeclarator (path_node (binding_path bp)) = false ->
  mapCallObject bp = Some (Identifier lX X) ->
  boundStringArray scope X = Some elems ->
  keysToEmit scope importer (Identifier lp p) = elems.
Proof.
  intros Hp Hdecl Hmap HX. unfold keysToEmit.
  assert (foldConstant (Some (Identifier lp p)) scope importer 0 = dynamic) as ->.
  { rewrite foldConstant_below by lia. simpl. rewrite Hp.
    unfold mapCallObject in Hmap.
    destruct (decide (binding_kind bp = K_param)) as [Hk|]; [|discriminate].
    destruct (decide (binding_kind bp = K_module)); [congruence|].
    now rewrite Hdecl. }
  simpl. rewrite Hp. simpl. rewrite Hmap.
  rewrite (foldConstant_boundStringArray _ _ _ _ _ HX).
  now destruct elems.
Qed.

(** C2, as the code has it: a lookup call [v(p)] (or [v.rich(p)] and the
    like) whose variable has the namespace [ns], whose key argument [p] is a
    parameter of a function passed to [X.map(...)], [X] being an identifier
    bound at the lookup call to an array literal of the strings [elems],
    emits one key per element, in array order: [ns.element], or the bare
    element when [ns] is empty. *)
Theorem map_iteration_keys (varNamespaceMap : gmap string string)
    (importer : option Importer) (l lp lX : Loc) (callee : node) (v p X ns : string)
    (rest : list node) (parent : option TreePath) (scope : Scope) (bp : Binding)
    (elems : list string) :
  lookupCallee callee = Some v ->
  lookupNamespace varNamespaceMap scope importer v = Some ns ->
  getBinding scope p = Some bp ->
  isVariableDeclarator (path_node (binding_path bp)) = false ->
  mapCallObject bp = Some (Identifier lX X) ->
  boundStringArray scope X = Some elems ->
  visitCallExpression varNamespaceMap importer
    (mkNodePath (CallExpression l callee (Identifier lp p :: rest)) parent scope)
  = (fun element =>
       AnalyzedKey.mk (qualified ns element) (start lp) (end_ lp) false v (Some ns))
    <$> elems.
Proof.
  intros Hc Hns Hp Hdecl Hmap HX.
  rewrite (visitCallExpression_lookupCallee _ _ _ _ _ _ _ _ Hc).
  rewrite (emitKeys_namespace _ _ _ _ _ _ _ Hns).
  now rewrite (keysToEmit_map_parameter _ _ _ _ _ _ _ _ Hp Hdecl Hmap HX).
Qed.

(** *** Computed member access *)

(** C10: when the property of the callee [v[...]] is not an identifier, no
    method name is read, the method filter lets the call through, and the
    visitor does what it does for the plain call [v(...)]. *)
Theorem computed_member_is_plain_lookup (varNamespaceMap : gmap string string)
    (importer : option Importer) (l lc lv : Loc) (v : string) (property : node)
    (args : list node) (parent : option TreePath) (scope : Scope) :
  name_of property = None ->
  visitCallExpression varNamespaceMap importer
    (mkNodePath (CallExpression l (MemberExpression lc (Identifier lv v) property) args)
       parent scope)
  = visitCallExpression varNamespaceMap importer
      (mkNodePath (CallExpression l (Identifier lv v) args) parent scope).
Proof.
  intros Hname. unfold visitCallExpression. simpl. now rewrite Hname.
Qed.

(** ** Unparsable source *)

(** C8: when the parser throws on the source text, both discovery passes
    return the empty list. *)
Theorem unparsable_source_empty (code : string) (filePath : option string)
    (varNamespaceMap : gmap string string) (importer : option Importer) :
  parse code = Throws ->
  analyzeUseTranslations code filePath importer = [] /\
  analyzeTranslationUsages code varNamespaceMap importer = [].
Proof.
  intros Hparse. unfold analyzeUseTranslations, analyzeTranslationUsages, parseCode.
  now rewrite Hparse.
Qed.

(** * Further properties *)

(** ** The constant folder *)

Lemma unwrapTS_idempotent (n : node) : unwrapTS (unwrapTS n) = unwrapTS n.
Proof. induction n; simpl; auto. Qed.

Lemma foldConstant_unwrapTS (n : node) (scope : Scope) (importer : option Importer)
    (depth : nat) :
  foldConstant (Some (unwrapTS n)) scope importer depth
  = foldConstant (Some n) scope importer depth.
Proof.
  destruct (le_gt_dec depth 5) as [Hd|Hd].
  - rewrite !foldConstant_below by exact Hd. now rewrite unwrapTS_idempotent.
  - now rewrite !foldConstant_beyond by lia.
Qed.

(** X1: a type assertion, an angle-bracket assertion, a non-null assertion
    and a [satisfies] annotation are transparent to the folder, however deeply
    they are nested, in every scope and at every depth. *)
Theorem type_wrappers_transparent (n : node) (scope : Scope)
    (importer : option Importer) (depth : nat) (l : Loc) :
  foldConstant (Some (TSAsExpression l n)) scope importer depth
    = foldConstant (Some n) scope importer depth /\
  foldConstant (Some (TSTypeAssertion l n)) scope importer depth
    = foldConstant (Some n) scope importer depth /\
  foldConstant (Some (TSNonNullExpression l n)) scope importer depth
    = foldConstant (Some n) scope importer depth /\
  foldConstant (Some (TSSatisfiesExpression l n)) scope importer depth
    = foldConstant (Some n) scope importer depth /\
  foldConstant (Some (unwrapTS n)) scope importer depth
    = foldConstant (Some n) scope importer depth.
Proof.
  repeat split;
    try (rewrite <- (foldConstant_unwrapTS (_ l n)), <- (foldConstant_unwrapTS n);
         reflexivity).
  apply foldConstant_unwrapTS.
Qed.

Lemma chainString_unwrapInit (scope : Scope) (len : nat) (n : node) :
  chainString scope len (unwrapInit n) = chainString scope len n.
Proof. destruct len; simpl; now rewrite unwrapTS_unwrapInit. Qed.

(** X2: an identifier that reaches a string literal through [len] aliases
    folds to that string as long as the literal is met at depth 5 or less. *)
Theorem alias_chain_resolves (scope : Scope) (importer : option Importer)
    (len : nat) (n : node) (depth : nat) (s : string) :
  chainString scope len n = Some s ->
  depth + len <= 5 ->
  foldConstant (Some n) scope importer depth = resolved (VString s).
Proof.
  revert n depth. induction len as [|len IH]; intros n depth Hchain Hlen.
  - rewrite foldConstant_below by lia. simpl in Hchain.
    destruct (unwrapTS n); try discriminate. now injection Hchain as ->.
  - rewrite foldConstant_below by lia. simpl in Hchain.
    destruct (unwrapTS n); try discriminate. simpl.
    destruct (getBinding scope name) as [binding|]; [|discriminate].
    destruct (decide (binding_kind binding = K_module)); [discriminate|].
    destruct (path_node (binding_path binding)); try discriminate.
    destruct init as [init|]; [|discriminate]. simpl.
    apply IH; [now rewrite chainString_unwrapInit | lia].
Qed.

(** *** A resolved string does not depend on the depth it was resolved at *)

Lemma resolvedString_Some (r : ResolvedValue) (s : string) :
  resolvedString r = Some s <-> r = resolved (VString s).
Proof.
  split; [|now intros ->].
  destruct r as [[[ | | ]|] []]; simpl; try discriminate. now intros [= ->].
Qed.

Definition stringsAgree (self1 self2 : option node -> ResolvedValue) : Prop :=
  forall n s, self1 n = resolved (VString s) -> self2 n = resolved (VString s).

Lemma foldTemplate_agree (self1 self2 : option node -> ResolvedValue)
    (quasis : list (option string)) :
  stringsAgree self1 self2 ->
  forall expressions acc parts,
    foldTemplate self1 quasis expressions acc = Some parts ->
    foldTemplate self2 quasis expressions acc = Some parts.
Proof.
  intros Hagree. induction quasis as [|quasi quasis IH];
    intros expressions acc parts; simpl; [auto|].
  destruct expressions as [|expr expressions]; [apply IH|].
  destruct (resolvedString (self1 (Some expr))) as [s|] eqn:Hs; [|discriminate].
  apply resolvedString_Some, Hagree in Hs. rewrite Hs. simpl. apply IH.
Qed.

Lemma foldArray_not_string (self : option node -> ResolvedValue)
    (elements : list (option node)) (s : string) :
  foldArray self elements <> resolved (VString s).
Proof. unfold foldArray. destruct (type_ _); discriminate. Qed.

Lemma foldNode_strings_agree
    (self1 self2 : option node -> Scope -> option Importer -> ResolvedValue)
    (n : node) (scope : Scope) (importer : option Importer) (s : string) :
  (forall scope' importer',
      stringsAgree (fun n' => self1 n' scope' importer')
        (fun n' => self2 n' scope' importer')) ->
  foldNode self1 n scope importer = resolved (VString s) ->
  foldNode self2 n scope importer = resolved (VString s).
Proof.
  intros Hagree.
  destruct n; simpl; try discriminate; auto.
  - destruct (getBinding scope name) as [binding|]; [|discriminate].
    destruct (decide _).
    + destruct (isImportSpecifier _); [|discriminate].
      unfold foldImported.
      repeat case_match; try discriminate.
      rewrite !fold_left_assign. destruct (last _); simpl; [|discriminate].
      apply (Hagree [] None).
    + destruct (isVariableDeclarator _); [|discriminate]. apply (Hagree scope importer).
  - destruct expressions as [|expr expressions]; [auto|].
    destruct (foldTemplate _ _ _ _) as [parts|] eqn:Hparts; [|discriminate].
    now rewrite (foldTemplate_agree _ _ _ (Hagree scope importer) _ _ _ Hparts).
  - intros H. now apply foldArray_not_string in H.
  - destruct (String.eqb operator "+"); [|discriminate].
    destruct (resolvedString (self1 (Some n1) scope importer)) as [a|] eqn:Ha;
      [|discriminate].
    destruct (resolvedString (self1 (Some n2) scope importer)) as [b|] eqn:Hb;
      [|discriminate].
    apply resolvedString_Some, (Hagree scope importer) in Ha, Hb.
    now rewrite Ha, Hb.
Qed.

Lemma foldConstant_string_step (depth : nat) :
  forall n scope importer s,
    foldConstant n scope importer (S depth) = resolved (VString s) ->
    foldConstant n scope importer depth = resolved (VString s).
Proof.
  remember (5 - depth) as budget eqn:Hbudget. revert depth Hbudget.
  induction budget as [|budget IH]; intros depth Hbudget n scope importer s Hs.
  - destruct (le_gt_dec depth 4); [lia|].
    rewrite foldConstant_beyond in Hs by lia. discriminate.
  - destruct n as [n|]; [|now rewrite foldConstant_equation_2 in Hs].
    rewrite foldConstant_below in Hs by lia.
    rewrite foldConstant_below by lia.
    revert Hs. apply foldNode_strings_agree.
    intros scope' importer' n' s'. apply IH. lia.
Qed.

(** X3: a string that the folder resolves at some depth is resolved to the
    same string at every smaller depth: starting with more of the recursion
    budget left never changes, or loses, a resolved string. *)
Theorem resolved_string_at_smaller_depth (n : option node) (scope : Scope)
    (importer : option Importer) (depth depth' : nat) (s : string) :
  depth' <= depth ->
  foldConstant n scope importer depth = resolved (VString s) ->
  foldConstant n scope importer depth' = resolved (VString s).
Proof.
  intros Hle. induction Hle as [|depth Hle IH]; [auto|].
  intros Hs. apply IH. now apply foldConstant_string_step.
Qed.

(** *** Array literals *)

Lemma no_single_object (res : ResolvedValue) :
  negb (isDynamic res) && typeof_object (value res)
  && not_null (value res) && negb (Array_isArray (value res)) = false.
Proof. destruct res as [[[ | | ]|] []]; reflexivity. Qed.

Lemma foldElements_never_string (self : option node -> ResolvedValue)
    (elements : list (option node)) :
  forall st, type_ st = T_object \/ type_ st = T_mixed ->
    type_ (foldElements self elements st) <> T_string.
Proof.
  induction elements as [|[el|] elements IH]; intros st Hst; simpl.
  - destruct Hst as [-> | ->]; discriminate.
  - destruct (resolvedString _).
    + destruct Hst as [-> | ->]; discriminate.
    + rewrite no_single_object.
      destruct el; try discriminate.
      destruct Hst as [-> | ->]; [|discriminate]. apply IH. simpl. auto.
  - now apply IH.
Qed.

Lemma foldElements_never_object (self : option node -> ResolvedValue)
    (elements : list (option node)) :
  forall st, type_ st = T_string \/ type_ st = T_mixed ->
    type_ (foldElements self elements st) <> T_object.
Proof.
  induction elements as [|[el|] elements IH]; intros st Hst; simpl.
  - destruct Hst as [-> | ->]; discriminate.
  - destruct (resolvedString _).
    + destruct Hst as [-> | ->]; [|discriminate]. apply IH. simpl. auto.
    + rewrite no_single_object.
      destruct el; try discriminate.
      destruct Hst as [-> | ->]; discriminate.
  - now apply IH.
Qed.

Lemma foldElements_strings (self : option node -> ResolvedValue)
    (elements : list (option node)) :
  forall st strs,
    type_ st = T_unknown \/ type_ st = T_string ->
    mapM (fun el => resolvedString (self (Some el))) (omap id elements) = Some strs ->
    foldElements self elements st =
    mkArrayState (match strs with [] => type_ st | _ => T_string end)
      (stringElements st ++ strs) (objectElements st).
Proof.
  induction elements as [|[el|] elements IH]; intros st strs Hst Hall; simpl in *.
  - injection Hall as <-. rewrite app_nil_r. now destruct st.
  - destruct (resolvedString (self (Some el))) as [s|]; [|discriminate]. simpl in Hall.
    destruct (mapM _ _) as [strs'|] eqn:Hrest; [|discriminate]. injection Hall as <-.
    assert (foldElements self elements
              (mkArrayState T_string (stringElements st ++ [s]) (objectElements st))
            = mkArrayState T_string ((stringElements st ++ [s]) ++ strs')
                (objectElements st)) as Hgo.
    { rewrite (IH _ strs') by (simpl; auto). simpl. now destruct strs'. }
    rewrite <- app_assoc in Hgo. destruct Hst as [-> | ->]; exact Hgo.
  - now apply IH.
Qed.

Lemma foldElements_strings_inv (self : option node -> ResolvedValue)
    (elements : list (option node)) :
  forall st,
    type_ st = T_unknown \/ type_ st = T_string ->
    type_ (foldElements self elements st) = T_string ->
    exists strs,
      mapM (fun el => resolvedString (self (Some el))) (omap id elements) = Some strs.
Proof.
  induction elements as [|[el|] elements IH]; intros st Hst Hfinal; simpl in *.
  - now exists [].
  - destruct (resolvedString (self (Some el))) as [s|].
    + assert (type_ (foldElements self elements
                       (mkArrayState T_string (stringElements st ++ [s])
                          (objectElements st))) = T_string) as Hgo
        by (destruct Hst as [Hu | Hu]; rewrite Hu in Hfinal; exact Hfinal).
      apply IH in Hgo as [strs Hstrs]; [|simpl; auto].
      exists (s :: strs).
      change (mapM (fun el => resolvedString (self (Some el))) (omap id elements)
              ≫= (fun k => Some (s :: k)) = Some (s :: strs)).
      now rewrite Hstrs.
    + rewrite no_single_object in Hfinal. exfalso.
      destruct el; try (simpl in Hfinal; discriminate).
      destruct Hst as [Hu | Hu]; rewrite Hu in Hfinal; [|discriminate].
      revert Hfinal. apply foldElements_never_string. simpl. auto.
  - now apply (IH st).
Qed.

(** X4: an array literal folds to an array of strings exactly when it has at
    least one element and every element (holes apart) folds to a string; the
    strings are then those of all the elements, in order.  No element is
    dropped and one unresolved element leaves no partial array. *)
Theorem string_array_complete (l : Loc) (elements : list (option node))
    (scope : Scope) (importer : option Importer) (depth : nat)
    (strs : list string) :
  depth <= 5 ->
  foldConstant (Some (ArrayExpression l elements)) scope importer depth
    = resolved (VStrings strs)
  <->
  strs <> [] /\
  mapM (fun el => resolvedString (foldConstant (Some el) scope importer (S depth)))
    (omap id elements) = Some strs.
Proof.
  intros Hd. rewrite foldConstant_below by exact Hd. simpl. unfold foldArray.
  set (self := fun el => foldConstant el scope importer (S depth)).
  split.
  - intros Hfold.
    destruct (type_ (foldElements self elements (mkArrayState T_unknown [] [])))
      eqn:Htype; try discriminate.
    destruct (foldElements_strings_inv self elements (mkArrayState T_unknown [] [])
                (or_introl eq_refl) Htype)
      as [strs' Hstrs'].
    rewrite (foldElements_strings self elements (mkArrayState T_unknown [] []) strs'
               (or_introl eq_refl) Hstrs')
      in Hfold, Htype.
    simpl in *. injection Hfold as <-. split; [|exact Hstrs'].
    intros ->. discriminate.
  - intros [Hne Hstrs].
    rewrite (foldElements_strings self elements (mkArrayState T_unknown [] []) strs
               (or_introl eq_refl) Hstrs).
    simpl. now destruct strs.
Qed.

Lemma foldConstant_ObjectExpression (l : Loc) (properties : list node)
    (scope : Scope) (importer : option Importer) (depth : nat) :
  foldConstant (Some (ObjectExpression l properties)) scope importer depth = dynamic.
Proof.
  destruct (le_gt_dec depth 5) as [Hd|Hd]; [|apply foldConstant_beyond; lia].
  now rewrite foldConstant_below by exact Hd.
Qed.

Lemma foldElements_objects (self : option node -> ResolvedValue)
    (elements : list (option node)) :
  (forall l properties, self (Some (ObjectExpression l properties)) = dynamic) ->
  forall st propss,
    type_ st = T_unknown \/ type_ st = T_object ->
    objectProperties elements = Some propss ->
    foldElements self elements st =
    mkArrayState (match propss with [] => type_ st | _ => T_object end)
      (stringElements st) (objectElements st ++ (foldProperties self <$> propss)).
Proof.
  intros Hself. unfold objectProperties.
  induction elements as [|[el|] elements IH]; intros st propss Hst Hall; simpl in *.
  - injection Hall as <-. simpl. rewrite app_nil_r. now destruct st.
  - destruct el; try discriminate. simpl in Hall.
    destruct (mapM _ _) as [propss'|] eqn:Hrest; [|discriminate]. injection Hall as <-.
    rewrite Hself. simpl.
    assert (foldElements self elements
              (mkArrayState T_object (stringElements st)
                 (objectElements st ++ [foldProperties self properties]))
            = mkArrayState T_object (stringElements st)
                ((objectElements st ++ [foldProperties self properties])
                 ++ (foldProperties self <$> propss'))) as Hgo.
    { rewrite (IH _ propss') by (simpl; auto). simpl. now destruct propss'. }
    rewrite <- app_assoc in Hgo. destruct Hst as [-> | ->]; exact Hgo.
  - now apply IH.
Qed.

Lemma foldElements_objects_inv (self : option node -> ResolvedValue)
    (elements : list (option node)) :
  forall st,
    type_ st = T_unknown \/ type_ st = T_object ->
    type_ (foldElements self elements st) = T_object ->
    exists propss, objectProperties elements = Some propss.
Proof.
  unfold objectProperties.
  induction elements as [|[el|] elements IH]; intros st Hst Hfinal; simpl in *.
  - now exists [].
  - destruct (resolvedString (self (Some el))) as [s|].
    + exfalso. destruct Hst as [Hu | Hu]; rewrite Hu in Hfinal; [|discriminate].
      revert Hfinal. apply foldElements_never_object. simpl. auto.
    + rewrite no_single_object in Hfinal.
      destruct el; try (simpl in Hfinal; discriminate).
      assert (type_ (foldElements self elements
                       (mkArrayState T_object (stringElements st)
                          (objectElements st ++ [foldProperties self properties])))
              = T_object) as Hgo
        by (destruct Hst as [Hu | Hu]; rewrite Hu in Hfinal; exact Hfinal).
      apply IH in Hgo as [propss Hpropss]; [|simpl; auto].
      exists (properties :: propss).
      change (mapM (fun el => match el with
                              | ObjectExpression _ properties => Some properties
                              | _ => None
                              end) (omap id elements)
              ≫= (fun k => Some (properties :: k)) = Some (properties :: propss)).
      now rewrite Hpropss.
  - now apply (IH st).
Qed.

Lemma foldProperties_lookup (self : option node -> ResolvedValue)
    (properties : list node) (k : string) :
  foldProperties self properties !! k
  = recordEntry (propertyStrings (fun v => resolvedString (self (Some v))) properties) k.
Proof.
  unfold foldProperties, recordEntry, propertyStrings.
  induction properties as [|prop properties IH] using rev_ind.
  - simpl. rewrite lookup_empty. now destruct (String.eqb k "__proto__").
  - rewrite fold_left_app, !omap_app. simpl.
    destruct prop as [| | | | | | | | | | | | | | | | |? key v| | | | | | | | | | | | | | | | | |];
      simpl; rewrite ?app_nil_r; try exact IH.
    destruct key as [| | | | | | | | | | | |? name| | | | | | | | | | | | | | | | | | | | | | |];
      simpl; rewrite ?app_nil_r; try exact IH.
    destruct (resolvedString (self (Some v))) as [s|]; simpl;
      rewrite ?app_nil_r; [|exact IH].
    destruct (String.eqb_spec name "__proto__") as [->|Hname].
    + rewrite IH. destruct (String.eqb k "__proto__") eqn:Hk; [reflexivity|].
      destruct (decide ("__proto__" = k)) as [Heq|_].
      * rewrite <- Heq in Hk. discriminate Hk.
      * simpl. now rewrite app_nil_r.
    + destruct (decide (name = k)) as [Heq|Hne]; simpl.
      * rewrite Heq, lookup_insert_eq. rewrite Heq in Hname.
        apply String.eqb_neq in Hname. rewrite Hname.
        now rewrite last_snoc.
      * rewrite lookup_insert_ne by exact Hne. now rewrite app_nil_r.
Qed.

Lemma records_by_entries (self : option node -> ResolvedValue)
    (propss : list (list node)) (records : list (gmap string string)) :
  Forall2 (fun properties (record : gmap string string) =>
             forall k, record !! k
                       = recordEntry
                           (propertyStrings (fun v => resolvedString (self (Some v)))
                              properties) k)
    propss records
  <-> records = foldProperties self <$> propss.
Proof.
  split.
  - induction 1 as [|properties record propss records Hrecord _ IH]; [reflexivity|].
    rewrite fmap_cons, <- IH. f_equal.
    apply map_eq. intros k. now rewrite Hrecord, foldProperties_lookup.
  - intros ->. induction propss as [|properties propss IH]; constructor; [|exact IH].
    intros k. apply foldProperties_lookup.
Qed.

(** X5: an array literal folds to an array of records exactly when it has at
    least one element and every element (holes apart) is an object literal;
    there is then one record per element, in order.  A record holds, for a
    name, the string of the last property [name: value] of its object
    literal whose value folds to a string, and nothing for a name without
    such a property or for [__proto__].  A property whose value does not fold
    to a string is left out without making the array dynamic. *)
Theorem record_array_complete (l : Loc) (elements : list (option node))
    (scope : Scope) (importer : option Importer) (depth : nat)
    (records : list (gmap string string)) :
  depth <= 5 ->
  foldConstant (Some (ArrayExpression l elements)) scope importer depth
    = resolved (VRecords records)
  <->
  exists propss,
    objectProperties elements = Some propss /\ propss <> [] /\
    Forall2 (fun properties (record : gmap string string) =>
               forall k,
                 record !! k
                 = recordEntry
                     (propertyStrings
                        (fun v => resolvedString
                                    (foldConstant (Some v) scope importer (S depth)))
                        properties) k)
      propss records.
Proof.
  intros Hd. rewrite foldConstant_below by exact Hd. simpl. unfold foldArray.
  set (self := fun el => foldConstant el scope importer (S depth)).
  assert (forall l' properties, self (Some (ObjectExpression l' properties)) = dynamic)
    as Hself by (intros; apply foldConstant_ObjectExpression).
  split.
  - intros Hfold.
    destruct (type_ (foldElements self elements (mkArrayState T_unknown [] [])))
      eqn:Htype; try discriminate.
    destruct (foldElements_objects_inv self elements (mkArrayState T_unknown [] [])
                (or_introl eq_refl) Htype)
      as [propss Hpropss].
    rewrite (foldElements_objects self elements Hself (mkArrayState T_unknown [] [])
               propss (or_introl eq_refl) Hpropss) in Hfold, Htype.
    simpl in *. injection Hfold as <-. exists propss.
    split; [exact Hpropss|]. split; [intros ->; discriminate|].
    now apply (records_by_entries self).
  - intros (propss & Hpropss & Hne & Hrecords).
    apply (records_by_entries self) in Hrecords as ->.
    rewrite (foldElements_objects self elements Hself (mkArrayState T_unknown [] [])
               propss (or_introl eq_refl) Hpropss).
    simpl. now destruct propss.
Qed.

(** *** Template literals *)

Lemma join_cons (x : string) (xs : list string) : join (x :: xs) = x +:+ join xs.
Proof.
  destruct xs as [|y ys]; [symmetry; apply append_empty_r | reflexivity].
Qed.

Lemma foldTemplate_text (self : option node -> ResolvedValue)
    (quasis : list (option string)) :
  forall expressions strs acc,
    Forall2 (fun e s => resolvedString (self (Some e)) = Some s) expressions strs ->
    exists parts,
      foldTemplate self quasis expressions acc = Some (acc ++ parts) /\
      join parts = templateText quasis strs.
Proof.
  induction quasis as [|quasi quasis IH]; intros expressions strs acc Hall; simpl.
  - exists []. now rewrite app_nil_r.
  - destruct Hall as [|e s expressions strs He Hall].
    + destruct (IH [] [] (acc ++ [or_empty quasi]) (List.Forall2_nil _)) as (parts & -> & Hjoin).
      exists (or_empty quasi :: parts). rewrite <- app_assoc. split; [reflexivity|].
      now rewrite join_cons, Hjoin.
    + rewrite He.
      destruct (IH expressions strs ((acc ++ [or_empty quasi]) ++ [s]) Hall)
        as (parts & -> & Hjoin).
      exists (or_empty quasi :: s :: parts). rewrite <- !app_assoc.
      split; [reflexivity|]. now rewrite !join_cons, Hjoin.
Qed.

Lemma foldTemplate_unresolved (self : option node -> ResolvedValue)
    (quasis : list (option string)) :
  forall expressions acc,
    Exists (fun e => resolvedString (self (Some e)) = None)
      (take (length quasis) expressions) ->
    foldTemplate self quasis expressions acc = None.
Proof.
  induction quasis as [|quasi quasis IH]; intros expressions acc Hex; simpl in *.
  - rewrite take_0 in Hex. inversion Hex.
  - destruct expressions as [|e expressions]; [inversion Hex|].
    simpl in Hex. destruct (resolvedString (self (Some e))) as [s|] eqn:He;
      [|reflexivity].
    apply IH. inversion Hex as [? ? Hhead | ? ? Htail]; subst; [congruence | exact Htail].
Qed.

(** X6: a template literal with substitutions folds to its quasis and the
    values of its substitutions in source order when every substitution folds
    to a string, and to dynamic as soon as one of them does not. *)
Theorem template_literal_text (l : Loc) (quasis : list (option string))
    (expressions : list node) (scope : Scope) (importer : option Importer)
    (depth : nat) :
  depth <= 5 ->
  expressions <> [] ->
  (forall strs,
      Forall2 (fun e s =>
                 foldConstant (Some e) scope importer (S depth) = resolved (VString s))
        expressions strs ->
      foldConstant (Some (TemplateLiteral l quasis expressions)) scope importer depth
      = resolved (VString (templateText quasis strs))) /\
  (Exists (fun e =>
             resolvedString (foldConstant (Some e) scope importer (S depth)) = None)
     (take (length quasis) expressions) ->
   foldConstant (Some (TemplateLiteral l quasis expressions)) scope importer depth
   = dynamic).
Proof.
  intros Hd Hne. rewrite foldConstant_below by exact Hd. simpl.
  destruct expressions as [|e expressions]; [contradiction|].
  set (self := fun e' => foldConstant e' scope importer (S depth)). split.
  - intros strs Hall.
    destruct (foldTemplate_text self quasis (e :: expressions) strs []) as (parts & -> & <-).
    + eapply Forall2_impl; [exact Hall|]. intros e' s' Hs. now apply resolvedString_Some.
    + reflexivity.
  - intros Hex. now rewrite (foldTemplate_unresolved self quasis _ [] Hex).
Qed.

(** ** The namespace resolver and accessor discovery *)

Lemma resolveNamespaceFromCall_states (callExpr : node) (scope : Scope)
    (importer : option Importer) (fileName : string) (line : nat) :
  let r := resolveNamespaceFromCall callExpr scope importer fileName line in
  (NamespaceResolution.isDynamic r = false /\
   is_Some (NamespaceResolution.namespace r) /\
   NamespaceResolution.dynamicPlaceholder r = None) \/
  (NamespaceResolution.isDynamic r = true /\
   NamespaceResolution.namespace r = None /\
   is_Some (NamespaceResolution.dynamicPlaceholder r)).
Proof.
  unfold resolveNamespaceFromCall.
  destruct (arguments_of callExpr !! 0) as [firstArg|]; [|right; simpl; eauto].
  destruct (resolvedString _); [left; simpl; eauto|].
  destruct firstArg; try (right; simpl; eauto; fail).
  destruct expressions; [right; simpl; eauto|].
  destruct (foldTemplate _ _ _ _); [left | right]; simpl; eauto.
Qed.

Lemma fold_left_push {A B : Type} (f : A -> list B) (l : list A) (acc : list B) :
  fold_left (fun results x => results ++ f x) l acc = acc ++ flat_map f l.
Proof.
  revert acc. induction l as [|x l IH]; intros acc; simpl.
  - now rewrite app_nil_r.
  - now rewrite IH, app_assoc.
Qed.

Lemma elem_of_flat_map {A B : Type} (f : A -> list B) (l : list A) (y : B) :
  y ∈ flat_map f l <-> exists x, x ∈ l /\ y ∈ f x.
Proof.
  rewrite !list_elem_of_In, in_flat_map.
  split; intros (x & Hx & Hy); exists x; now rewrite ?list_elem_of_In in *.
Qed.

(** X7: every binding that accessor discovery reports is in one of two
    states: resolved, with a namespace and no placeholder, or dynamic, with a
    placeholder and no namespace. *)
Theorem accessor_binding_states (code : string) (filePath : option string)
    (importer : option Importer) (r : UseTranslationsAnalysis.t) :
  r ∈ analyzeUseTranslations code filePath importer ->
  (UseTranslationsAnalysis.isDynamic r = false /\
   is_Some (UseTranslationsAnalysis.namespace r) /\
   UseTranslationsAnalysis.dynamicPlaceholder r = None) \/
  (UseTranslationsAnalysis.isDynamic r = true /\
   UseTranslationsAnalysis.namespace r = None /\
   is_Some (UseTranslationsAnalysis.dynamicPlaceholder r)).
Proof.
  unfold analyzeUseTranslations.
  destruct (parseCode code) as [ast|]; [|intros H; inversion H].
  rewrite fold_left_push. simpl. rewrite elem_of_flat_map.
  intros (nodePath & _ & Hr). unfold visitVariableDeclarator in Hr.
  repeat match type of Hr with
         | _ ∈ match ?x with _ => _ end =>
             destruct x; try (now apply elem_of_nil in Hr)
         | _ ∈ (if ?b then _ else _) =>
             destruct b; try (now apply elem_of_nil in Hr)
         end.
  apply list_elem_of_singleton in Hr as ->. simpl.
  apply resolveNamespaceFromCall_states.
Qed.

(** X8: a template-literal argument resolves to the joined parts whenever
    each of its substitutions folds to a string on its own, at depth 0: the
    resolver's second pass over the substitutions makes up for the level the
    folder spends on the template literal itself. *)
Theorem template_namespace_second_pass (l lc : Loc) (callee : node)
    (quasis : list (option string)) (e : node) (expressions rest : list node)
    (scope : Scope) (importer : option Importer) (fileName : string) (line : nat)
    (parts : list string) :
  foldTemplate (fun expr => foldConstant expr scope importer 0)
    quasis (e :: expressions) [] = Some parts ->
  resolveNamespaceFromCall
    (CallExpression lc callee (TemplateLiteral l quasis (e :: expressions) :: rest))
    scope importer fileName line
  = NamespaceResolution.mk (Some (join parts)) false None.
Proof.
  intros Hparts. unfold resolveNamespaceFromCall. simpl.
  destruct (resolvedString _) as [s|] eqn:Hs; [|now rewrite Hparts].
  rewrite foldConstant_below in Hs by lia. simpl in Hs.
  destruct (foldTemplate _ quasis (e :: expressions) [])
    as [parts'|] eqn:Hparts' in Hs; [|discriminate].
  injection Hs as <-.
  apply (foldTemplate_agree _ (fun expr => foldConstant expr scope importer 0)) in Hparts'.
  - rewrite Hparts in Hparts'. now injection Hparts' as ->.
  - intros n s. apply foldConstant_string_step.
Qed.

(** ** Usage discovery *)

Lemma lookupNamespace_None (varNamespaceMap : gmap string string) (scope : Scope)
    (importer : option Importer) (v : string) :
  lookupNamespace varNamespaceMap scope importer v = None ->
  varNamespaceMap !! v = None.
Proof.
  unfold lookupNamespace.
  destruct (scopeNamespace scope importer v) as [s|] eqn:Hs.
  - rewrite truthy_Some, (scopeNamespace_truthy _ _ _ _ Hs). discriminate.
  - simpl. case_bool_decide as Hsome; [auto|].
    intros _. destruct (varNamespaceMap !! v); [|reflexivity].
    exfalso. apply Hsome. eauto.
Qed.

Lemma emitKeys_origin (varNamespaceMap : gmap string string)
    (importer : option Importer) (scope : Scope) (v : string) (args : list node)
    (ak : AnalyzedKey.t) :
  ak ∈ emitKeys varNamespaceMap importer scope v args ->
  exists ns firstArg rest local,
    args = firstArg :: rest /\
    lookupNamespace varNamespaceMap scope importer v = Some ns /\
    local ∈ keysToEmit scope importer firstArg /\
    ak = AnalyzedKey.mk (qualified ns local)
           (start (node_loc firstArg)) (end_ (node_loc firstArg))
           (match firstArg with
            | StringLiteral _ _ | TemplateLiteral _ _ _ => true
            | _ => false
            end) v (Some ns).
Proof.
  intros Hak.
  destruct (lookupNamespace varNamespaceMap scope importer v) as [ns|] eqn:Hns.
  - destruct args as [|firstArg rest].
    + unfold emitKeys in Hak. simpl in Hak. destruct (_ && _); now apply elem_of_nil in Hak.
    + rewrite (emitKeys_namespace _ _ _ _ _ _ _ Hns) in Hak.
      apply list_elem_of_fmap in Hak as (local & -> & Hlocal).
      now exists ns, firstArg, rest, local.
  - exfalso. unfold emitKeys in Hak. rewrite Hns in Hak.
    rewrite (lookupNamespace_None _ _ _ _ Hns) in Hak.
    rewrite bool_decide_eq_false_2 in Hak by (intros [? ?]; discriminate).
    simpl in Hak. now apply elem_of_nil in Hak.
Qed.

(** X9: every key that usage discovery returns comes from a call with a first
    argument through a non-empty variable name, carries a namespace (possibly
    the empty one, never none), and is that namespace, a dot and a local key,
    or the bare local key when the namespace is empty. *)
Theorem emitted_key_is_qualified (code : string) (varNamespaceMap : gmap string string)
    (importer : option Importer) (ak : AnalyzedKey.t) :
  ak ∈ analyzeTranslationUsages code varNamespaceMap importer ->
  exists ns local,
    AnalyzedKey.namespace ak = Some ns /\
    AnalyzedKey.key ak = qualified ns local /\
    AnalyzedKey.variableName ak <> "".
Proof.
  unfold analyzeTranslationUsages.
  destruct (parseCode code) as [ast|]; [|intros H; now apply elem_of_nil in H].
  rewrite fold_left_push. simpl. rewrite elem_of_flat_map.
  intros (nodePath & _ & Hak). unfold visitCallExpression in Hak.
  repeat match type of Hak with
         | _ ∈ match ?x with _ => _ end =>
             destruct x eqn:?; try (now apply elem_of_nil in Hak)
         | _ ∈ (if ?b then _ else _) =>
             destruct b eqn:?; try (now apply elem_of_nil in Hak)
         end;
    match goal with
    | Hv : negb (truthy (Some ?v)) = false |- _ =>
        apply emitKeys_origin in Hak as (ns & firstArg & rest & local & _ & _ & _ & ->);
        exists ns, local; repeat split; simpl;
        intros ->; discriminate
    end.
Qed.

(** *** Map iteration over an array of objects *)

Lemma foldProperties_literal (self : option node -> ResolvedValue)
    (properties : list node) (pairs : list (string * string)) :
  (forall l s, self (Some (StringLiteral l s)) = resolved (VString s)) ->
  literalProperties properties = Some pairs ->
  foldProperties self properties = recordOf pairs.
Proof.
  intros Hself. unfold foldProperties, recordOf, literalProperties.
  generalize (∅ : gmap string string). revert pairs.
  induction properties as [|prop properties IH]; intros pairs obj Hpairs; simpl in *.
  - now injection Hpairs as <-.
  - destruct prop; try discriminate.
    destruct prop1; try discriminate. destruct prop2; try discriminate.
    simpl in Hpairs.
    destruct (String.eqb name "__proto__") eqn:Hname; [discriminate|].
    simpl in Hpairs.
    destruct (mapM _ properties) as [pairs'|] eqn:Hrest; [|discriminate].
    injection Hpairs as <-. simpl. rewrite Hself. simpl. now apply IH.
Qed.

Lemma foldProperties_literals (self : option node -> ResolvedValue)
    (propss : list (list node)) (pairss : list (list (string * string))) :
  (forall l s, self (Some (StringLiteral l s)) = resolved (VString s)) ->
  mapM literalProperties propss = Some pairss ->
  foldProperties self <$> propss = recordOf <$> pairss.
Proof.
  intros Hself. revert pairss.
  induction propss as [|props propss IH]; intros pairss Hall; simpl in Hall.
  - now injection Hall as <-.
  - destruct (literalProperties props) as [pairs|] eqn:Hprops; [|discriminate].
    simpl in Hall. destruct (mapM _ propss) as [pairss'|]; [|discriminate].
    injection Hall as <-. rewrite !fmap_cons.
    now rewrite (foldProperties_literal _ _ _ Hself Hprops), (IH pairss').
Qed.

Lemma foldConstant_boundRecordArray (scope : Scope) (importer : option Importer)
    (l : Loc) (x : string) (records : list (gmap string string)) :
  boundRecordArray scope x = Some records ->
  foldConstant (Some (Identifier l x)) scope importer 0 =
    match records with
    | [] => dynamic
    | _ => resolved (VRecords records)
    end.
Proof.
  unfold boundRecordArray. intros Hx.
  rewrite foldConstant_below by lia. simpl.
  destruct (getBinding scope x) as [binding|]; [|discriminate].
  destruct (decide (binding_kind binding = K_module)); [discriminate|].
  destruct (path_node (binding_path binding)); try discriminate.
  destruct init as [init|]; [|discriminate]. simpl.
  rewrite foldConstant_below by lia. rewrite unwrapTS_unwrapInit.
  destruct (unwrapTS init); try discriminate. simpl.
  destruct (objectProperties elements) as [propss|] eqn:Hpropss; [|discriminate].
  simpl in Hx. destruct (mapM literalProperties propss) as [pairss|] eqn:Hpairss;
    [|discriminate].
  injection Hx as <-. unfold foldArray.
  rewrite (foldElements_objects (fun el => foldConstant el scope importer 2) elements
             (fun l' properties =>
                foldConstant_ObjectExpression l' properties scope importer 2)
             (mkArrayState T_unknown [] []) propss (or_introl eq_refl) Hpropss).
  simpl.
  rewrite (foldProperties_literals _ propss pairss) by
    (auto; intros; apply foldConstant_StringLiteral; lia).
  pose proof (length_mapM _ _ _ Hpairss) as Hlen.
  destruct propss, pairss; simpl in Hlen; try discriminate; reflexivity.
Qed.

Lemma objectPrototype_NoDup : NoDup objectPrototype.*1.
Proof. apply (bool_decide_unpack _). vm_compute. exact I. Qed.

Lemma inheritedMembers_objectPrototype (prop : string) :
  prop ∉ inheritedMembers ->
  (list_to_map objectPrototype : gmap string string) !! prop = None.
Proof.
  intros Hprop. apply not_elem_of_list_to_map_1.
  exact Hprop.
Qed.

Lemma omap_readProperty (prop : string) (items : list (gmap string string)) :
  prop ∉ inheritedMembers ->
  omap (fun item : gmap string string => readProperty item prop) items
  = omap (truthyProperty prop) items.
Proof.
  intros Hprop.
  induction items as [|item items IH]; [reflexivity|].
  cbn [omap list_omap] in *. rewrite IH.
  unfold truthyProperty, readProperty.
  destruct (item !! prop) as [s|]; simpl.
  - now destruct (String.eqb s "").
  - now rewrite inheritedMembers_objectPrototype.
Qed.

Lemma omap_readProperty_inherited (prop text : string)
    (items : list (gmap string string)) :
  (list_to_map objectPrototype : gmap string string) !! prop = Some text ->
  Forall (fun item : gmap string string => item !! prop = None) items ->
  omap (fun item : gmap string string => readProperty item prop) items
  = (fun _ => text) <$> items.
Proof.
  intros Htext Hall.
  induction Hall as [|item items Hitem Hall IH]; [reflexivity|].
  cbn [omap list_omap]. rewrite fmap_cons. unfold readProperty at 1.
  rewrite Hitem, Htext. f_equal. exact IH.
Qed.

(** X10: a lookup call [v(obj.prop)] whose variable has the namespace [ns],
    [obj] being a parameter of a function passed to [X.map(...)] and [X] an
    identifier bound at the lookup call to an array of object literals,
    emits one key for each object whose [prop] is a non-empty string, in array
    order, and none for the objects without it, when [prop] is not the name
    of a member every object inherits.  When it is such a name, no object
    has a property of its own by that name and the namespace is not empty,
    every object emits a key, made of the namespace and the text of the
    inherited member. *)
Theorem object_map_iteration_keys (varNamespaceMap : gmap string string)
    (importer : option Importer) (l lm lo lp lX : Loc) (callee : node)
    (v obj prop X ns : string) (rest : list node) (parent : option TreePath)
    (scope : Scope) (bp : Binding) (records : list (gmap string string)) :
  lookupCallee callee = Some v ->
  lookupNamespace varNamespaceMap scope importer v = Some ns ->
  obj <> "" ->
  getBinding scope obj = Some bp ->
  mapCallObject bp = Some (Identifier lX X) ->
  boundRecordArray scope X = Some records ->
  (prop ∉ inheritedMembers ->
   visitCallExpression varNamespaceMap importer
     (mkNodePath
        (CallExpression l callee
           (MemberExpression lm (Identifier lo obj) (Identifier lp prop) :: rest))
        parent scope)
   = (fun local =>
        AnalyzedKey.mk (qualified ns local) (start lm) (end_ lm) false v (Some ns))
     <$> omap (truthyProperty prop) records) /\
  (forall text,
      (prop, text) ∈ objectPrototype ->
      Forall (fun record : gmap string string => record !! prop = None) records ->
      ns <> "" ->
      visitCallExpression varNamespaceMap importer
        (mkNodePath
           (CallExpression l callee
              (MemberExpression lm (Identifier lo obj) (Identifier lp prop) :: rest))
           parent scope)
      = (fun _ =>
           AnalyzedKey.mk (ns +:+ "." +:+ text) (start lm) (end_ lm) false v (Some ns))
        <$> records).
Proof.
  intros Hc Hns Hobj Hp Hmap HX.
  assert (visitCallExpression varNamespaceMap importer
            (mkNodePath
               (CallExpression l callee
                  (MemberExpression lm (Identifier lo obj) (Identifier lp prop) :: rest))
               parent scope)
          = (fun local =>
               AnalyzedKey.mk (qualified ns local) (start lm) (end_ lm) false v (Some ns))
            <$> omap (fun item : gmap string string => readProperty item prop) records)
    as ->.
  { rewrite (visitCallExpression_lookupCallee _ _ _ _ _ _ _ _ Hc).
    rewrite (emitKeys_namespace _ _ _ _ _ _ _ Hns). simpl.
    f_equal. unfold keysToEmit.
    rewrite foldConstant_below by lia. simpl.
    apply String.eqb_neq in Hobj. rewrite Hobj. simpl.
    rewrite Hp. simpl. rewrite Hmap.
    rewrite (foldConstant_boundRecordArray _ _ _ _ _ HX).
    now destruct records. }
  split.
  - intros Hprop. now rewrite omap_readProperty.
  - intros text Htext Hall Hne.
    rewrite (omap_readProperty_inherited prop text records); [|
      apply elem_of_list_to_map_1; [exact objectPrototype_NoDup | exact Htext]
      | exact Hall].
    rewrite <- list_fmap_compose. unfold qualified.
    apply String.eqb_neq in Hne. now rewrite Hne.
Qed.

(** *** Where an emitted key comes from *)

Lemma mapCallObject_shape (scope : Scope) (name : string) (object : node) :
  getBinding scope name ≫= mapCallObject = Some object ->
  mapCallback scope name.
Proof.
  destruct (getBinding scope name) as [bp|] eqn:Hb; [|discriminate]. simpl.
  unfold mapCallObject.
  destruct (decide (binding_kind bp = K_param)) as [Hk|]; [|discriminate].
  destruct (path_parent (binding_path bp)) as [fn|] eqn:Hfn; [|discriminate]. simpl.
  destruct (tp_parent fn) as [call_|] eqn:Hcall; [|discriminate]. simpl.
  destruct (tp_node call_) eqn:Hnode; try discriminate.
  match goal with
  | |- match ?callee with _ => _ end = _ -> _ => destruct callee; try discriminate
  end.
  match goal with
  | |- match ?object with _ => _ end = _ -> _ => destruct object; try discriminate
  end.
  match goal with
  | |- match ?property with _ => _ end = _ -> _ => destruct property; try discriminate
  end.
  intros H.
  match goal with
  | H : match ?m with "" => _ | String _ _ => _ end = _ |- _ =>
      assert (m = "map") as ->
        by (repeat (destruct m as [|[[] [] [] [] [] [] [] []] m]; try discriminate);
            reflexivity)
  end.
  unfold mapCallback. eauto 15.
Qed.

(** X25: a key that a lookup call emits for its first argument is either the
    string that the argument folds to, or comes from one of the two
    iteration rules, and these apply only to an identifier, or to a property
    of an identifier, that is a parameter of a function passed directly to a
    call of the method [map] on an identifier: no other method, and no
    receiver that is not an identifier, makes a lookup emit keys. *)
Theorem iterated_key_origin (scope : Scope) (importer : option Importer)
    (firstArg : node) (key : string) :
  key ∈ keysToEmit scope importer firstArg ->
  foldConstant (Some firstArg) scope importer 0 = resolved (VString key) \/
  (exists l name, firstArg = Identifier l name /\ mapCallback scope name) \/
  (exists l lo name lp prop,
      firstArg = MemberExpression l (Identifier lo name) (Identifier lp prop) /\
      mapCallback scope name).
Proof.
  unfold keysToEmit. intros Hkey.
  destruct (resolvedString (foldConstant (Some firstArg) scope importer 0))
    as [s|] eqn:Hres.
  - left. apply list_elem_of_singleton in Hkey as ->. now apply resolvedString_Some.
  - right.
    destruct firstArg as [| | | | | | | | | | | |l name| | | | | | | |l object property| | | | | | | | | | | | | | |];
      try (now apply elem_of_nil in Hkey).
    + left. destruct (getBinding scope name ≫= mapCallObject) as [object|] eqn:Hmap;
        [|now apply elem_of_nil in Hkey].
      exists l, name. split; [reflexivity|]. exact (mapCallObject_shape _ _ _ Hmap).
    + right.
      destruct object as [| | | | | | | | | | | |lo name| | | | | | | | | | | | | | | | | | | | | | |];
        try (now apply elem_of_nil in Hkey).
      destruct property as [| | | | | | | | | | | |lp prop| | | | | | | | | | | | | | | | | | | | | | |];
        try (now apply elem_of_nil in Hkey).
      destruct (truthy (Some name)); [|now apply elem_of_nil in Hkey].
      destruct (getBinding scope name ≫= mapCallObject) as [object|] eqn:Hmap;
        [|now apply elem_of_nil in Hkey].
      exists l, lo, name, lp, prop. split; [reflexivity|].
      exact (mapCallObject_shape _ _ _ Hmap).
Qed.

(** ** The variable-to-namespace map of [detectKeys] *)

Lemma namespaceMap_from (v : string) (translationsAnalysis : list UseTranslationsAnalysis.t) :
  forall varNamespaceMap : gmap string string,
    fold_left
      (fun varNamespaceMap analysis =>
         if truthy (UseTranslationsAnalysis.namespace analysis)
         then <[UseTranslationsAnalysis.variableName analysis :=
                  default "" (UseTranslationsAnalysis.namespace analysis)]> varNamespaceMap
         else varNamespaceMap)
      translationsAnalysis varNamespaceMap !! v
    = match last (recordedNamespaces v translationsAnalysis) with
      | Some ns => Some ns
      | None => varNamespaceMap !! v
      end.
Proof.
  induction translationsAnalysis as [|analysis rest IH] using rev_ind;
    intros varNamespaceMap; [reflexivity|].
  rewrite fold_left_app. unfold recordedNamespaces in *. rewrite omap_app. simpl.
  destruct (UseTranslationsAnalysis.namespace analysis) as [ns|]; simpl.
  - destruct (String.eqb ns "") eqn:Hns; simpl.
    + destruct (decide _); simpl; rewrite app_nil_r; apply IH.
    + destruct (decide (UseTranslationsAnalysis.variableName analysis = v)) as [->|Hne];
        simpl.
      * rewrite last_snoc. apply lookup_insert_eq.
      * rewrite app_nil_r, lookup_insert_ne by exact Hne. apply IH.
  - destruct (decide _); simpl; rewrite app_nil_r; apply IH.
Qed.

(** X11: the map that [detectKeys] hands to usage discovery gives for each
    variable the namespace of its last declaration with a non-empty resolved
    namespace, and has no entry for a variable without such a declaration:
    declarations of one name in different functions overwrite one another. *)
Theorem namespaceMap_last_declaration (v : string)
    (translationsAnalysis : list UseTranslationsAnalysis.t) :
  namespaceMap translationsAnalysis !! v
  = last (recordedNamespaces v translationsAnalysis).
Proof.
  unfold namespaceMap. rewrite namespaceMap_from, lookup_empty.
  now destruct (last _).
Qed.

(** ** The framework: key rewriting and refactor templates *)

Lemma append_cons (c : ascii) (a b : string) : String c a +:+ b = String c (a +:+ b).
Proof. reflexivity. Qed.

Lemma append_assoc (a b c : string) : (a +:+ b) +:+ c = a +:+ (b +:+ c).
Proof.
  induction a as [|x a IH]; [reflexivity|]. now rewrite !append_cons, IH.
Qed.

Lemma split_not_nil (sep : ascii) (s : string) : split sep s <> [].
Proof.
  destruct s as [|a s]; simpl; [discriminate|].
  destruct (Ascii.eqb a sep); [discriminate|]. now destruct (split sep s).
Qed.

Lemma concat_cons_cons (sep x y : string) (l : list string) :
  String.concat sep (x :: y :: l) = x +:+ sep +:+ String.concat sep (y :: l).
Proof. reflexivity. Qed.

Lemma concat_split (sep : ascii) (s : string) :
  String.concat (String sep "") (split sep s) = s.
Proof.
  induction s as [|a s IH]; [reflexivity|]. simpl.
  destruct (Ascii.eqb_spec a sep) as [->|Hne].
  - destruct (split sep s) as [|h t] eqn:Hs; [now apply split_not_nil in Hs|].
    rewrite concat_cons_cons, IH. reflexivity.
  - destruct (split sep s) as [|h t] eqn:Hs; [now apply split_not_nil in Hs|].
    destruct t as [|h' t].
    + simpl in *. now rewrite IH.
    + rewrite concat_cons_cons, append_cons. rewrite concat_cons_cons in IH.
      now rewrite IH.
Qed.

Lemma dotted_id (key : string) : dotted key = key.
Proof. apply concat_split. Qed.

Lemma prefix_append (a b : string) : String.prefix a (a +:+ b) = true.
Proof.
  induction a as [|x a IH]; [now destruct b|]. rewrite append_cons. simpl.
  now destruct (ascii_dec x x).
Qed.

Lemma includes_append (sub a b : string) :
  includes sub b = true -> includes sub (a +:+ b) = true.
Proof.
  intros Hb. induction a as [|x a IH]; [exact Hb|].
  rewrite append_cons. simpl. rewrite IH. apply orb_true_r.
Qed.

Lemma includes_prefix (sub s : string) :
  String.prefix sub s = true -> includes sub s = true.
Proof. intros H. destruct s; simpl in *; now rewrite H. Qed.

Lemma slice_append (a b : string) : slice (String.length a) (a +:+ b) = b.
Proof. induction a as [|x a IH]; [reflexivity | exact IH]. Qed.

(** X12: joining on the dot what was split on the dot gives the key back, so
    [rewriteKeys] only ever returns the key itself or the key without its
    first characters; it returns the key itself when the context has no
    namespace, when the key has no dot and when the key does not start with
    the namespace. *)
Theorem rewriteKeys_key_or_suffix (key : string) (namespace : option string) :
  dotted key = key /\
  rewriteKeys key namespace
  = (if includes "." key && truthy namespace && startsWith (default "" namespace) key
     then slice (String.length (default "" namespace) + 1) key
     else key).
Proof.
  split; [apply dotted_id|].
  unfold rewriteKeys. rewrite !dotted_id. simpl. now rewrite orb_false_r.
Qed.

(** X13: [rewriteKeys] undoes the qualification of usage discovery: for a
    non-empty namespace, the key [namespace.local] is rewritten to [local]
    under that namespace. *)
Theorem rewriteKeys_strips_namespace (ns local : string) :
  ns <> "" ->
  rewriteKeys (qualified ns local) (Some ns) = local.
Proof.
  intros Hns. apply String.eqb_neq in Hns.
  unfold qualified, rewriteKeys. rewrite Hns, !dotted_id. simpl.
  rewrite orb_false_r, Hns. simpl.
  rewrite (includes_append "." ns ("." +:+ local))
    by apply includes_prefix, prefix_append.
  unfold startsWith. rewrite prefix_append. simpl.
  replace (String.length ns + 1) with (S (String.length ns)) by lia.
  assert (forall a, slice (S (String.length a)) (a +:+ "." +:+ local) = local) as Hs.
  { induction a as [|x a IH]; [reflexivity | exact IH]. }
  apply Hs.
Qed.

Lemma concat_drop_suffix (sep : string) (k : nat) (l : list string) :
  exists pre, String.concat sep l = pre +:+ String.concat sep (drop k l).
Proof.
  revert k. induction l as [|x l IH]; intros k.
  - exists "". now rewrite drop_nil.
  - destruct k as [|k]; [now exists ""|].
    rewrite skipn_cons. destruct (IH k) as [pre Hpre].
    destruct l as [|y l].
    + exists x. rewrite drop_nil. simpl. now rewrite append_empty_r.
    + exists (x +:+ sep +:+ pre).
      rewrite concat_cons_cons, Hpre. now rewrite !append_assoc.
Qed.

(** X14: [refactorTemplates] offers two templates per dot-separated segment
    of the key path; both templates of the whole key path are among them; and
    every key it puts in a template is a trailing part of the key path. *)
Theorem refactorTemplates_trailing_keys (keypath : string) :
  length (refactorTemplates keypath) = 2 * length (split "."%char keypath) /\
  "{t('" +:+ keypath +:+ "')}" ∈ refactorTemplates keypath /\
  "t('" +:+ keypath +:+ "')" ∈ refactorTemplates keypath /\
  (forall template, template ∈ refactorTemplates keypath ->
     exists pre cur,
       keypath = pre +:+ cur /\
       (template = "{t('" +:+ cur +:+ "')}" \/ template = "t('" +:+ cur +:+ "')")).
Proof.
  unfold refactorTemplates.
  set (parts := split "."%char keypath).
  set (keypaths := imap _ parts).
  assert (keypath ∈ keypaths) as Hfull.
  { destruct (lookup_lt_is_Some_2 parts (length parts - 1)) as [x Hx].
    { pose proof (split_not_nil "."%char keypath) as Hne. fold parts in Hne.
      destruct parts; [contradiction | simpl; lia]. }
    pose proof (elem_of_lookup_imap_2
                  (fun index (cur : string) =>
                     String.concat "." (drop (length parts - index - 1) parts))
                  parts x (length parts - 1) Hx) as Hin.
    simpl in Hin.
    replace (length parts - (length parts - 1) - 1) with 0 in Hin by lia.
    rewrite drop_0 in Hin. unfold parts in Hin at 1.
    now rewrite (concat_split "."%char keypath) in Hin. }
  assert (forall cur, cur ∈ keypaths -> exists pre, keypath = pre +:+ cur) as Htrail.
  { intros cur Hcur. apply elem_of_lookup_imap_1 in Hcur as (i & x & -> & _).
    destruct (concat_drop_suffix "." (length parts - i - 1) parts) as [pre Hpre].
    exists pre. rewrite <- Hpre. unfold parts.
    symmetry. apply (concat_split "."%char keypath). }
  split; [|split; [|split]].
  - rewrite length_app, !length_fmap. unfold keypaths. rewrite length_imap. lia.
  - apply elem_of_app. left. apply list_elem_of_fmap. now exists keypath.
  - apply elem_of_app. right. apply list_elem_of_fmap. now exists keypath.
  - intros template Hin.
    apply elem_of_app in Hin as [Hin | Hin];
      apply list_elem_of_fmap in Hin as (cur & -> & Hcur);
      destruct (Htrail cur Hcur) as [pre Hpre]; exists pre, cur; auto.
Qed.

(** ** The framework: scope ranges *)

Lemma scopeRangeMaps_resolved (translationsAnalysis : list UseTranslationsAnalysis.t) :
  Forall (fun analysis => UseTranslationsAnalysis.isDynamic analysis = false)
    translationsAnalysis ->
  scopeRangeMaps translationsAnalysis = (namespaceMap translationsAnalysis, ∅).
Proof.
  unfold scopeRangeMaps, namespaceMap.
  generalize (∅ : gmap string string) at 1 3. intros m Hall. revert m.
  induction Hall as [|analysis rest Hdyn Hall IH]; intros m; [reflexivity|].
  simpl. rewrite Hdyn.
  destruct (truthy (UseTranslationsAnalysis.namespace analysis)); apply IH.
Qed.

(** X15: when no declaration of the file is dynamic and at least one has a
    namespace, [getScopeRange] runs usage discovery with the very map that
    [detectKeys] uses, and its ranges are the positions of the keys that
    carry a non-empty namespace; the fallback pattern is consulted only when
    there is no such key. *)
Theorem scope_ranges_of_detected_keys (text filePath : string) (importer : Importer) :
  let translationsAnalysis :=
    analyzeUseTranslations text (Some filePath) (Some importer) in
  Forall (fun analysis => UseTranslationsAnalysis.isDynamic analysis = false)
    translationsAnalysis ->
  namespaceMap translationsAnalysis <> ∅ ->
  getScopeRange text filePath importer =
    match omap usageRange
            (analyzeTranslationUsages text (namespaceMap translationsAnalysis)
               (Some importer)) with
    | [] =>
        match last (namespaceMatches text) with
        | Some (index, namespace) => [ScopeRange.mk index (String.length text) namespace]
        | None => []
        end
    | ranges => ranges
    end.
Proof.
  intros translationsAnalysis Hall Hne. unfold getScopeRange.
  fold translationsAnalysis. rewrite (scopeRangeMaps_resolved _ Hall).
  assert (Nat.ltb 0 (size (namespaceMap translationsAnalysis)) = true) as ->.
  { apply Nat.ltb_lt. apply map_size_non_empty_iff in Hne. lia. }
  simpl. rewrite (left_id_L ∅ (∪)).
  now destruct (omap usageRange _).
Qed.

(** ** The framework: the import resolver *)

Lemma readFirstExisting_sound (resolvedPath : string) (exts : list string)
    (text : string) :
  readFirstExisting resolvedPath exts = Some text ->
  exists path, existsSync path = true /\ readSync path = Some text.
Proof.
  induction exts as [|ext exts IH]; simpl; [discriminate|].
  destruct (existsSync (resolvedPath +:+ ext)) eqn:Hex; [|exact IH].
  intros Hread. now exists (resolvedPath +:+ ext).
Qed.

(** X16: the import resolver answers only import paths that begin with a dot
    or with [@/], and a text it returns is always what [readSync] gave for a
    path that exists. *)
Theorem importer_reads_existing_files (fsPath : string) (wsFolder : option string)
    (importPath text : string) :
  createImporter fsPath wsFolder importPath = Some text ->
  (startsWith "." importPath = true \/ startsWith "@/" importPath = true) /\
  exists path, existsSync path = true /\ readSync path = Some text.
Proof.
  unfold createImporter.
  destruct (startsWith "." importPath) eqn:Hdot.
  - intros Hread. split; [auto|]. now apply readFirstExisting_sound in Hread.
  - destruct (startsWith "@/" importPath) eqn:Hat; [|discriminate].
    intros Hread. split; [auto|]. now apply readFirstExisting_sound in Hread.
Qed.

(** X17: for a relative import whose resolved path exists as it is, the
    resolver reads that path and nothing else: when the read fails (a
    directory, say) there is no text, and neither the extensions nor the
    index files are tried. *)
Theorem importer_exact_path_is_final (fsPath : string) (wsFolder : option string)
    (importPath : string) :
  startsWith "." importPath = true ->
  existsSync (pathResolve (dirname fsPath) importPath) = true ->
  createImporter fsPath wsFolder importPath
  = readSync (pathResolve (dirname fsPath) importPath).
Proof.
  intros Hdot Hex. unfold createImporter. rewrite Hdot. simpl.
  now rewrite append_empty_r, Hex.
Qed.

(** ** When the resolver and the parser are consulted *)

Lemma foldProperties_ext (self1 self2 : option node -> ResolvedValue)
    (properties : list node) :
  (forall n, self1 n = self2 n) ->
  foldProperties self1 properties = foldProperties self2 properties.
Proof.
  intros Hext. unfold foldProperties. generalize (∅ : gmap string string).
  induction properties as [|prop properties IH]; intros obj; [reflexivity|].
  simpl. rewrite <- IH. f_equal.
  destruct prop; try reflexivity. destruct prop1; try reflexivity. now rewrite Hext.
Qed.

Lemma foldElements_ext (self1 self2 : option node -> ResolvedValue)
    (elements : list (option node)) :
  (forall n, self1 n = self2 n) ->
  forall st, foldElements self1 elements st = foldElements self2 elements st.
Proof.
  intros Hext. induction elements as [|[el|] elements IH]; intros st; simpl; auto.
  rewrite Hext. destruct (resolvedString _).
  - destruct (type_ st); auto.
  - destruct (_ && _); [auto|].
    destruct el; try reflexivity.
    rewrite (foldProperties_ext _ _ _ Hext). destruct (type_ st); auto.
Qed.

Lemma foldTemplate_ext (self1 self2 : option node -> ResolvedValue)
    (quasis : list (option string)) :
  (forall n, self1 n = self2 n) ->
  forall expressions acc,
    foldTemplate self1 quasis expressions acc = foldTemplate self2 quasis expressions acc.
Proof.
  intros Hext. induction quasis as [|quasi quasis IH]; intros expressions acc;
    simpl; [reflexivity|].
  destruct expressions as [|expr expressions]; [apply IH|].
  rewrite Hext. destruct (resolvedString _); [apply IH | reflexivity].
Qed.

Lemma getBinding_noImportBindings (scope : Scope) (name : string) (binding : Binding) :
  noImportBindings scope = true ->
  getBinding scope name = Some binding ->
  binding_kind binding <> K_module.
Proof.
  induction scope as [|own parent IH]; [discriminate|].
  intros Hno Hb. pose proof Hno as Hall. simpl in Hall.
  apply andb_prop in Hall as [Hown Hparent].
  simpl in Hb. destruct (own !! name) as [d|] eqn:Hd.
  - injection Hb as <-. simpl.
    rewrite forallb_forall in Hown.
    specialize (Hown (name, d)). simpl in Hown.
    apply negb_true_iff, bool_decide_eq_false in Hown; [exact Hown|].
    apply list_elem_of_In. now apply elem_of_map_to_list.
  - now apply IH.
Qed.

Lemma foldNode_without_imports
    (self1 self2 : option node -> Scope -> option Importer -> ResolvedValue)
    (n : node) (scope : Scope) (importer importer' : option Importer) :
  noImportBindings scope = true ->
  (forall n', self1 n' scope importer = self2 n' scope importer') ->
  foldNode self1 n scope importer = foldNode self2 n scope importer'.
Proof.
  intros Hno Hext. destruct n; simpl; try reflexivity.
  - destruct (getBinding scope name) as [binding|] eqn:Hb; [|reflexivity].
    pose proof (getBinding_noImportBindings _ _ _ Hno Hb) as Hk.
    destruct (decide (binding_kind binding = K_module)); [contradiction|].
    destruct (isVariableDeclarator _); [apply Hext | reflexivity].
  - destruct expressions; [reflexivity|].
    now rewrite (foldTemplate_ext _ (fun expr => self2 expr scope importer') _ Hext).
  - unfold foldArray.
    now rewrite (foldElements_ext _ (fun el => self2 el scope importer') _ Hext).
  - now rewrite !Hext.
Qed.

(** X18: in a scope chain without import bindings the resolver is never
    consulted: the fold of any expression is the same with any resolver and
    with none. *)
Theorem resolver_only_for_imports (n : option node) (scope : Scope)
    (importer importer' : option Importer) (depth : nat) :
  noImportBindings scope = true ->
  foldConstant n scope importer depth = foldConstant n scope importer' depth.
Proof.
  intros Hno. remember (6 - depth) as budget eqn:Hbudget.
  revert n depth Hbudget.
  induction budget as [|budget IH]; intros n depth Hbudget.
  - now rewrite !foldConstant_beyond by lia.
  - destruct n as [n|]; [|now rewrite !foldConstant_equation_2].
    rewrite !foldConstant_below by lia.
    apply foldNode_without_imports; [exact Hno|].
    intros n'. apply IH. lia.
Qed.

(** *** The keys of [detectKeys] *)

Lemma analyzed_key_origin (code : string) (varNamespaceMap : gmap string string)
    (importer : option Importer) (ak : AnalyzedKey.t) :
  ak ∈ analyzeTranslationUsages code varNamespaceMap importer ->
  exists scope v ns local,
    lookupNamespace varNamespaceMap scope importer v = Some ns /\
    AnalyzedKey.key ak = qualified ns local.
Proof.
  unfold analyzeTranslationUsages.
  destruct (parseCode code) as [ast|]; [|intros H; now apply elem_of_nil in H].
  rewrite fold_left_push. simpl. rewrite elem_of_flat_map.
  intros (nodePath & _ & Hak). unfold visitCallExpression in Hak.
  repeat match type of Hak with
         | _ ∈ match ?x with _ => _ end =>
             destruct x eqn:?; try (now apply elem_of_nil in Hak)
         | _ ∈ (if ?b then _ else _) =>
             destruct b eqn:?; try (now apply elem_of_nil in Hak)
         end;
    apply emitKeys_origin in Hak as (ns & firstArg & rest & local & _ & Hns & _ & ->);
    eexists _, _, ns, local; (split; [exact Hns | reflexivity]).
Qed.

Lemma namespaceMap_entry_not_empty (translationsAnalysis : list UseTranslationsAnalysis.t)
    (v ns : string) :
  namespaceMap translationsAnalysis !! v = Some ns -> String.eqb ns "" = false.
Proof.
  unfold namespaceMap. rewrite namespaceMap_from, lookup_empty.
  destruct (last (recordedNamespaces v translationsAnalysis)) as [ns'|] eqn:Hlast;
    [|discriminate].
  intros [= ->]. apply last_Some_elem_of in Hlast.
  unfold recordedNamespaces in Hlast.
  apply list_elem_of_omap in Hlast as (analysis & _ & Hns).
  destruct (decide _); [|discriminate].
  destruct (UseTranslationsAnalysis.namespace analysis) as [ns'|]; [|discriminate].
  destruct (String.eqb ns' "") eqn:Hempty; [discriminate|].
  now injection Hns as <-.
Qed.

(** X21: every key that [detectKeys] returns is a non-empty namespace, a dot
    and a local key: the map it builds holds no empty namespace and the
    scope-based resolution accepts none, so no lookup is ever detected as a
    bare, unprefixed key. *)
Theorem detected_keys_are_prefixed (text filePath : string) (importer : Importer)
    (entry : string * nat * nat * bool) :
  entry ∈ detectKeys text filePath importer ->
  exists ns local, ns <> "" /\ entry.1.1.1 = ns +:+ "." +:+ local.
Proof.
  unfold detectKeys. intros Hentry.
  apply list_elem_of_fmap in Hentry as (ak & -> & Hak).
  apply analyzed_key_origin in Hak as (scope & v & ns & local & Hns & Hkey).
  assert (String.eqb ns "" = false) as Hne.
  { unfold lookupNamespace in Hns.
    destruct (negb _ && _).
    - exact (namespaceMap_entry_not_empty _ _ _ Hns).
    - exact (scopeNamespace_truthy _ _ _ _ Hns). }
  exists ns, local. split.
  - intros ->. discriminate Hne.
  - simpl. rewrite Hkey. unfold qualified. now rewrite Hne.
Qed.

(** X22: when the parser throws on the text of a document, [detectKeys]
    returns no key and [getScopeRange] only the range of the last match of
    the [namespace:] pattern, from its index to the end of the text, or
    nothing when the pattern has no match. *)
Theorem unparsable_document (text filePath : string) (importer : Importer) :
  parse text = Throws ->
  detectKeys text filePath importer = [] /\
  getScopeRange text filePath importer
  = match last (namespaceMatches text) with
    | Some (index, namespace) => [ScopeRange.mk index (String.length text) namespace]
    | None => []
    end.
Proof.
  intros Hparse.
  unfold detectKeys, getScopeRange, analyzeUseTranslations, analyzeTranslationUsages,
    parseCode.
  rewrite Hparse. split; reflexivity.
Qed.

End Analyzer.

(** X19: without a resolver no module text is ever parsed: the fold is the
    same whatever the parser. *)
Theorem parser_only_with_resolver (parse parse' : string -> ParseResult)
    (n : option node) (scope : Scope) (depth : nat) :
  foldConstant parse n scope None depth = foldConstant parse' n scope None depth.
Proof.
  remember (6 - depth) as budget eqn:Hbudget.
  revert n scope depth Hbudget.
  induction budget as [|budget IH]; intros n scope depth Hbudget.
  - now rewrite !foldConstant_beyond by lia.
  - destruct n as [n|]; [|now rewrite !foldConstant_equation_2].
    rewrite !foldConstant_below by lia.
    assert (forall n' scope', foldConstant parse n' scope' None (S depth)
                              = foldConstant parse' n' scope' None (S depth)) as Hext
      by (intros; apply IH; lia).
    destruct (unwrapTS n); simpl; try reflexivity.
    + destruct (getBinding scope name) as [binding|]; [|reflexivity].
      destruct (decide _).
      * destruct (isImportSpecifier _); [|reflexivity].
        unfold foldImported. now repeat case_match.
      * destruct (isVariableDeclarator _); [apply Hext | reflexivity].
    + destruct expressions; [reflexivity|].
      now rewrite (foldTemplate_ext _
                     (fun expr => foldConstant parse' expr scope None (S depth)) _
                     (fun n' => Hext n' scope)).
    + unfold foldArray.
      now rewrite (foldElements_ext _
                     (fun el => foldConstant parse' el scope None (S depth)) _
                     (fun n' => Hext n' scope)).
    + now rewrite !Hext.
Qed.

(** * The properties on the example programs *)

Lemma exampleParse_login : exampleParse login_source = Parsed login_ast.
Proof. reflexivity. Qed.

Lemma login_title_key_witness :
  exampleParse login_source = Parsed login_ast /\
  ({[ "t" := "auth" ]} : gmap string string) !! "useTranslations" = None /\
  analyzeTranslationUsages exampleParse login_source {[ "t" := "auth" ]} None
  = [AnalyzedKey.mk "auth.login.title" 37 50 true "t" (Some "auth")].
Proof.
  split; [reflexivity|]. split; [reflexivity|].
  refine (proj1 (login_title_key exampleParse (fun f => f) {[ "t" := "auth" ]}
                   "page.tsx" None (fun _ => None) _ _)); reflexivity.
Defined.

(** The lookup call [t(i)] of [const ITEMS = ['a','b']; ITEMS.map(i => t(i))],
    as the traversal reaches it. *)
Lemma map_iteration_keys_witness :
  exists p,
    traverse (items_ast ["a"; "b"]) isCallExpression !! 1 = Some p /\
    path_node p = call (ident "t") [ident "i"] /\
    boundStringArray (path_scope p) "ITEMS" = Some ["a"; "b"] /\
    visitCallExpression exampleParse {[ "t" := "ns" ]} None p
    = [AnalyzedKey.mk "ns.a" 0 0 false "t" (Some "ns");
       AnalyzedKey.mk "ns.b" 0 0 false "t" (Some "ns")].
Proof.
  eexists. split; [vm_compute; reflexivity|].
  split; [reflexivity|]. split; [reflexivity|].
  eapply (map_iteration_keys exampleParse {[ "t" := "ns" ]} None
            L0 L0 L0 (ident "t") "t" "i" "ITEMS" "ns" [] _ _ _ ["a"; "b"]);
    reflexivity.
Defined.

(** Mapping directly over the array literal, [['a','b'].map(i => t(i))],
    emits no key at all, although [t] has a namespace. *)
Lemma map_over_array_literal_emits_nothing :
  exampleParse inline_items_source = Parsed (inline_items_ast ["a"; "b"]) /\
  analyzeTranslationUsages exampleParse inline_items_source {[ "t" := "ns" ]} None = [].
Proof. split; reflexivity. Qed.

(** Under an empty namespace the elements are emitted bare, and a callback
    parameter that hides the array's name leaves the receiver unresolved in the
    scope of the lookup call. *)
Lemma map_iteration_empty_namespace :
  AnalyzedKey.key
    <$> analyzeTranslationUsages exampleParse items_source {[ "t" := "" ]} None
  = ["a"; "b"].
Proof. reflexivity. Qed.

Lemma map_iteration_hidden_receiver :
  AnalyzedKey.key
    <$> analyzeTranslationUsages
          (fun _ => Parsed
             (Program L0
                [ constDecl "ITEMS" (strings ["a"; "b"]);
                  stmt (call (member (ident "ITEMS") "map")
                          [arrow "ITEMS" (call (ident "t") [ident "ITEMS"])]) ]))
          "const ITEMS = ['a','b']; ITEMS.map(ITEMS => t(ITEMS))" {[ "t" := "ns" ]} None
  = [].
Proof. reflexivity. Qed.

(** C3, at [function A() { const t = useTranslations(''); t('title') }
    function B() { const t = useTranslations('other') }]: accessor discovery
    resolves the namespace of A's [t] to the empty string, not dynamic; usage
    discovery nevertheless drops it, emits no key for [t('title')] under an
    empty fallback map, and qualifies it with B's namespace under the map
    that the declarations of the file give. *)
Lemma scope_resolved_empty_namespace_is_dropped :
  (fun r => (UseTranslationsAnalysis.variableName r,
             UseTranslationsAnalysis.namespace r,
             UseTranslationsAnalysis.isDynamic r))
    <$> analyzeUseTranslations exampleParse (fun f => f) empty_namespace_source None None
  = [("t", Some "", false); ("t", Some "other", false)] /\
  analyzeTranslationUsages exampleParse empty_namespace_source ∅ None = [] /\
  AnalyzedKey.key
    <$> analyzeTranslationUsages exampleParse empty_namespace_source
          {[ "t" := "other" ]} None
  = ["other.title"].
Proof. repeat split; vm_compute; reflexivity. Qed.

(** C4, at [shadowed_source]: accessor discovery resolves the three
    declarations of [t] to [first], the empty string and [third], none of them
    dynamic.  The lookup in A is qualified by A's own namespace, through the
    awaited call, although the map built from the file holds [third] for [t].
    The lookup in B, whose own namespace is the empty string, is qualified by
    C's namespace instead of being left bare, and is missing altogether under
    an empty fallback map. *)
Theorem empty_namespace_takes_another_scope :
  furtherParse shadowed_source = Parsed shadowed_ast /\
  analyzeUseTranslations furtherParse (fun f => f) shadowed_source (Some "page.tsx") None
  = [ UseTranslationsAnalysis.mk "t" (Some "first") false None (at_ 27 61);
      UseTranslationsAnalysis.mk "t" (Some "") false None (at_ 94 117);
      UseTranslationsAnalysis.mk "t" (Some "third") false None (at_ 150 178) ] /\
  detectKeys furtherParse (fun f => f) shadowed_source "page.tsx" (fun _ => None)
  = [ ("first.k1", 65, 69, true); ("third.k2", 121, 125, true);
      ("third.k3", 182, 186, true) ] /\
  analyzeTranslationUsages furtherParse shadowed_source ∅ None
  = [ AnalyzedKey.mk "first.k1" 65 69 true "t" (Some "first");
      AnalyzedKey.mk "third.k3" 182 186 true "t" (Some "third") ].
Proof. repeat split; vm_compute; reflexivity. Qed.

(** C6, at [unnamed_import_source] with the module [unnamed_export_source]:
    the module exports no variable named [x], yet the name imported as [x]
    folds to the string of the module's destructuring declaration, whose
    declarator has no name either, and accessor discovery reports that string
    as the namespace. *)
Theorem import_of_unexported_name_resolves :
  furtherParse unnamed_import_source = Parsed unnamed_import_ast /\
  furtherParse unnamed_export_source = Parsed unnamed_export_ast /\
  flatExports (program_body unnamed_export_ast) = true /\
  namedInits "x" (program_body unnamed_export_ast) = [] /\
  foldConstant furtherParse (Some (Identifier (at_ 59 61) "NS"))
    (programScope unnamed_import_ast) (Some unnamedImporter) 0
  = resolved (VString "lit") /\
  analyzeUseTranslations furtherParse (fun f => f) unnamed_import_source
    (Some "page.tsx") (Some unnamedImporter)
  = [UseTranslationsAnalysis.mk "t" (Some "lit") false None (at_ 39 62)].
Proof. repeat split; vm_compute; reflexivity. Qed.

Lemma concatenated_namespace_witness :
  constantString (programScope concat_ast) "a" = Some "scope" /\
  constantString (programScope concat_ast) "b" = Some ".sub" /\
  resolveNamespaceFromCall exampleParse
    (CallExpression L0 (ident "useTranslations")
       [BinaryExpression L0 "+" (Identifier L0 "a") (Identifier L0 "b")])
    (programScope concat_ast) None "unknown" 0
  = NamespaceResolution.mk (Some "scope.sub") false None.
Proof.
  split; [reflexivity|]. split; [reflexivity|].
  apply (proj1 (concatenated_namespace exampleParse (programScope concat_ast) None
                  "unknown" 0 "a" "b" "scope" ".sub" L0 L0 L0 L0 L0
                  (ident "useTranslations") [] eq_refl eq_refl)).
Defined.

Lemma foldConstant_depth_bounded_witness :
  aliasChain (programScope chain_ast) 6 (ident "a6") = true /\
  foldConstant exampleParse (Some (ident "a6")) (programScope chain_ast) None 0 = dynamic /\
  foldConstant exampleParse (Some (str "x")) [] None 6 = dynamic.
Proof.
  split; [reflexivity|]. split.
  - apply (proj2 (proj2 (foldConstant_depth_bounded exampleParse))
             (programScope chain_ast) None 6 (ident "a6")); [reflexivity | lia].
  - apply (proj1 (proj2 (foldConstant_depth_bounded exampleParse))). lia.
Defined.

(** The bound is exact: five aliases still resolve. *)
Lemma five_aliases_resolve :
  foldConstant exampleParse (Some (ident "a4")) (programScope chain_ast) None 0
  = resolved (VString "x").
Proof. reflexivity. Qed.

Lemma unparsable_source_empty_witness :
  exampleParse "const = ;" = Throws /\
  analyzeUseTranslations exampleParse (fun f => f) "const = ;" None None = [] /\
  analyzeTranslationUsages exampleParse "const = ;" {[ "t" := "auth" ]} None = [].
Proof.
  split; [reflexivity|].
  apply (unparsable_source_empty exampleParse (fun f => f)). reflexivity.
Defined.

Lemma foldConstant_result_invariant_witness :
  isDynamic (foldConstant exampleParse (Some (strings ["a"; "b"])) [] None 0) = false /\
  ((exists s, value (foldConstant exampleParse (Some (strings ["a"; "b"])) [] None 0)
              = Some (VString s)) \/
   (exists l, value (foldConstant exampleParse (Some (strings ["a"; "b"])) [] None 0)
              = Some (VStrings l)) \/
   (exists l, value (foldConstant exampleParse (Some (strings ["a"; "b"])) [] None 0)
              = Some (VRecords l))).
Proof.
  split; [reflexivity|].
  apply (proj1 (foldConstant_result_invariant exampleParse
                  (Some (strings ["a"; "b"])) [] None 0)).
  reflexivity.
Defined.

(** [t['raw']('k')] is treated as [t('k')]. *)
Lemma computed_member_is_plain_lookup_witness :
  name_of (str "raw") = None /\
  visitCallExpression exampleParse {[ "t" := "ns" ]} None
    (mkNodePath (call (MemberExpression L0 (ident "t") (str "raw")) [str "k"]) None [])
  = [AnalyzedKey.mk "ns.k" 0 0 true "t" (Some "ns")].
Proof.
  split; [reflexivity|].
  refine (eq_trans
            (computed_member_is_plain_lookup exampleParse {[ "t" := "ns" ]} None
               L0 L0 L0 "t" (str "raw") [str "k"] None [] eq_refl) _).
  reflexivity.
Defined.

(** The same through the whole pass. *)
Lemma computed_member_source_key :
  AnalyzedKey.key
    <$> analyzeTranslationUsages exampleParse computed_source {[ "t" := "ns" ]} None
  = ["ns.k"].
Proof. reflexivity. Qed.

(** The framework's [detectKeys] on the first two examples: the map it builds
    from the declarations of the file is the one usage discovery receives. *)
Lemma detectKeys_login :
  detectKeys exampleParse (fun f => f) login_source "page.tsx" (fun _ => None)
  = [("auth.login.title", 37, 50, true)].
Proof. vm_compute. reflexivity. Qed.

Lemma detectKeys_empty_namespace :
  detectKeys exampleParse (fun f => f) empty_namespace_source "page.tsx" (fun _ => None)
  = [("other.title", 0, 0, true)].
Proof. vm_compute. reflexivity. Qed.

(** * The expectations of the repository's tests

    Each example runs a pass on the tree of the test's source text and states
    what the test expects. *)

Module Tests.

(** The passes on a test with a single source text, whose tree is [ast]. *)
#[local] Abbreviation namespaces ast :=
  ((fun r => (UseTranslationsAnalysis.variableName r,
              UseTranslationsAnalysis.namespace r,
              UseTranslationsAnalysis.isDynamic r))
   <$> analyzeUseTranslations (fun _ => Parsed ast) (fun f => f) "" None None).

#[local] Abbreviation placeholders ast :=
  (UseTranslationsAnalysis.dynamicPlaceholder
   <$> analyzeUseTranslations (fun _ => Parsed ast) (fun f => f) "" None None).

#[local] Abbreviation keys ast varNamespaceMap :=
  (AnalyzedKey.key
   <$> analyzeTranslationUsages (fun _ => Parsed ast) ""
         (varNamespaceMap : gmap string string) None).

#[local] Abbreviation accessor f args := (call (ident f) args).

(** should resolve indirect template literal namespace *)
Example indirect_template_namespace :
  namespaces
    (Program L0
       [ constDecl "part" (str "auth");
         constDecl "ns" (TemplateLiteral L0 [Some "scope."; Some ""] [ident "part"]);
         constDecl "t" (accessor "useTranslations" [ident "ns"]) ])
  = [("t", Some "scope.auth", false)].
Proof. reflexivity. Qed.

(** should resolve binary expression concatenation usage *)
Example binary_concatenation_namespace :
  namespaces
    (Program L0
       [ constDecl "ns" (BinaryExpression L0 "+" (str "scope") (str ".sub"));
         constDecl "t" (accessor "useTranslations" [ident "ns"]) ])
  = [("t", Some "scope.sub", false)].
Proof. reflexivity. Qed.

(** should detect dynamic expression namespace *)
Example dynamic_expression_namespace :
  placeholders
    (Program L0
       [ VariableDeclaration L0 V_const
           [ VariableDeclarator (mkLoc 6 43 1) (ident "t")
               (Some (accessor "useTranslations" [call (ident "getNamespace") []])) ] ])
  = [Some "<dynamic:unknown:L1>"].
Proof. reflexivity. Qed.

(** should handle no-argument calls (dynamic default) *)
Example no_argument_namespace :
  placeholders
    (Program L0
       [ VariableDeclaration L0 V_const
           [ VariableDeclarator (mkLoc 6 27 1) (ident "t")
               (Some (accessor "useTranslations" [])) ] ])
  = [Some "<no-namespace:unknown:L1>"].
Proof. reflexivity. Qed.

(** should handle await getTranslations *)
Example await_getTranslations :
  namespaces
    (Program L0
       [ constDecl "t" (AwaitExpression L0 (accessor "getTranslations" [str "auth"])) ])
  = [("t", Some "auth", false)].
Proof. reflexivity. Qed.

(** should respect variable shadowing for constants *)
Example shadowed_namespace_constants :
  namespaces
    (Program L0
       [ constDecl "ns" (str "global");
         fnDecl "A" [ constDecl "t" (accessor "useTranslations" [ident "ns"]) ];
         fnDecl "B" [ constDecl "ns" (str "local");
                      constDecl "t" (accessor "useTranslations" [ident "ns"]) ] ])
  = [("t", Some "global", false); ("t", Some "local", false)].
Proof. reflexivity. Qed.

(** should find t.rich() calls *)
Example rich_call :
  keys (Program L0
          [ constDecl "message"
              (call (member (ident "t") "rich") [str "welcome"; ObjectExpression L0 []]) ])
    {[ "t" := "common" ]}
  = ["common.welcome"].
Proof. reflexivity. Qed.

(** should resolve key with "as const" assertion *)
Example as_const_key :
  keys (Program L0 [ stmt (call (ident "t") [TSAsExpression L0 (str "login.title")]) ])
    {[ "t" := "auth" ]}
  = ["auth.login.title"].
Proof. reflexivity. Qed.

(** should NOT return key if variable is dynamic/unknown *)
Example unknown_variable_key :
  keys (Program L0 [ stmt (call (ident "t") [ident "someUnknownVar"]) ])
    {[ "t" := "auth" ]}
  = [].
Proof. reflexivity. Qed.

(** should handle null namespace (e.g. dynamic namespace) *)
Example empty_fallback_namespace :
  keys (Program L0 [ stmt (call (ident "t") [str "title"]) ]) {[ "t" := "" ]}
  = ["title"].
Proof. reflexivity. Qed.

(** should resolve keys from array map iteration *)
Example array_map_iteration :
  keys (Program L0
          [ constDecl "CATEGORIES" (strings ["electronics"; "books"]);
            stmt (call (member (ident "CATEGORIES") "map")
                    [arrow "cat" (call (ident "t") [ident "cat"])]) ])
    {[ "t" := "common" ]}
  = ["common.electronics"; "common.books"].
Proof. reflexivity. Qed.

(** should resolve keys from array with as const assertion *)
Example as_const_array_map_iteration :
  keys (Program L0
          [ constDecl "CATEGORIES" (TSAsExpression L0 (strings ["a"; "b"]));
            stmt (call (member (ident "CATEGORIES") "map")
                    [arrow "cat" (call (ident "t") [ident "cat"])]) ])
    {[ "t" := "common" ]}
  = ["common.a"; "common.b"].
Proof. reflexivity. Qed.

(** should resolve keys from imported constant array *)
Example imported_array_map_iteration :
  AnalyzedKey.key
    <$> analyzeTranslationUsages exampleParse categories_source {[ "t" := "common" ]}
          (Some exampleImporter)
  = ["common.electronics"; "common.books"].
Proof. reflexivity. Qed.

(** should resolve keys from object array map iteration *)
Example object_array_map_iteration :
  keys (Program L0
          [ constDecl "SECTIONS"
              (ArrayExpression L0
                 [ Some (ObjectExpression L0
                           [ ObjectProperty L0 (ident "id") (str "section-basic");
                             ObjectProperty L0 (ident "label") (str "nav.basic") ]);
                   Some (ObjectExpression L0
                           [ ObjectProperty L0 (ident "id") (str "section-groupbuy");
                             ObjectProperty L0 (ident "label") (str "nav.group_buy") ]) ]);
            stmt (call (member (ident "SECTIONS") "map")
                    [arrow "section"
                       (call (ident "t") [member (ident "section") "label"])]) ])
    {[ "t" := "common" ]}
  = ["common.nav.basic"; "common.nav.group_buy"].
Proof. reflexivity. Qed.

(** should respect variable shadowing for keys *)
Example shadowed_key_constants :
  keys (Program L0
          [ constDecl "key" (str "global.key");
            fnDecl "A" [ stmt (call (ident "t") [ident "key"]) ];
            fnDecl "B" [ constDecl "key" (str "local.key");
                         stmt (call (ident "t") [ident "key"]) ] ])
    {[ "t" := "common" ]}
  = ["common.global.key"; "common.local.key"].
Proof. reflexivity. Qed.

End Tests.

(** ** Scopes on small programs *)

Module Scopes.

#[local] Abbreviation keys ast varNamespaceMap :=
  (AnalyzedKey.key
   <$> analyzeTranslationUsages (fun _ => Parsed ast) ""
         (varNamespaceMap : gmap string string) None).

#[local] Abbreviation accessor ns := (call (ident "useTranslations") [str ns]).

(** [ITEMS.map(function (i) { return t(i) })]: a function expression as
    callback. *)
Example function_expression_callback :
  keys (Program L0
          [ constDecl "ITEMS" (strings ["a"; "b"]);
            stmt (call (member (ident "ITEMS") "map")
                    [ FunctionExpression L0 None [ident "i"]
                        (BlockStatement L0
                           [ReturnStatement L0 (Some (call (ident "t") [ident "i"]))]) ]) ])
    {[ "t" := "ns" ]}
  = ["ns.a"; "ns.b"].
Proof. reflexivity. Qed.

(** [ITEMS.map(([c]) => t(c))]: a name bound by a pattern is a parameter. *)
Example destructured_parameter :
  keys (Program L0
          [ constDecl "ITEMS" (strings ["a"; "b"]);
            stmt (call (member (ident "ITEMS") "map")
                    [ ArrowFunctionExpression L0 [ArrayPattern L0 [Some (ident "c")]]
                        (call (ident "t") [ident "c"]) ]) ])
    {[ "t" := "ns" ]}
  = ["ns.a"; "ns.b"].
Proof. reflexivity. Qed.

(** [ITEMS.forEach(i => t(i))]: no other method than [map] iterates. *)
Example other_method_callback :
  keys (Program L0
          [ constDecl "ITEMS" (strings ["a"; "b"]);
            stmt (call (member (ident "ITEMS") "forEach")
                    [arrow "i" (call (ident "t") [ident "i"])]) ])
    {[ "t" := "ns" ]}
  = [].
Proof. reflexivity. Qed.

(** [function f() { { const ns = 'inner'; var t = useTranslations(ns) } t('k') }]:
    the [var] is visible in the whole function, and its namespace is resolved
    in the block of its declarator. *)
Example hoisted_var :
  keys (Program L0
          [ fnDecl "f"
              [ BlockStatement L0
                  [ constDecl "ns" (str "inner");
                    VariableDeclaration L0 V_var
                      [ VariableDeclarator L0 (ident "t")
                          (Some (call (ident "useTranslations") [ident "ns"])) ] ];
                stmt (call (ident "t") [str "k"]) ] ])
    ∅
  = ["inner.k"].
Proof. reflexivity. Qed.

(** [const { t } = useTranslations('a'); t('k')]: the names of a
    destructuring declarator are bound to the declarator. *)
Example destructured_declarator :
  keys (Program L0
          [ VariableDeclaration L0 V_const
              [ VariableDeclarator L0
                  (ObjectPattern L0 [ObjectProperty L0 (ident "t") (ident "t")])
                  (Some (accessor "a")) ];
            stmt (call (ident "t") [str "k"]) ])
    ∅
  = ["a.k"].
Proof. reflexivity. Qed.

(** [const item = 'k'; for (const item of xs) { t(item) } t(item)]: the
    loop's own [item] has no initializer. *)
Example loop_declaration_shadows :
  keys (Program L0
          [ constDecl "item" (str "k");
            OtherScope L0
              [ VariableDeclaration L0 V_const [VariableDeclarator L0 (ident "item") None];
                ident "xs";
                BlockStatement L0 [stmt (call (ident "t") [ident "item"])] ];
            stmt (call (ident "t") [ident "item"]) ])
    {[ "t" := "ns" ]}
  = ["ns.k"].
Proof. reflexivity. Qed.

(** [const X = 'outer'; function f(a = t(X)) { const X = 'body'; t(X) }]: a
    default value does not see the declarations of the body. *)
Example parameter_default_scope :
  keys (Program L0
          [ constDecl "X" (str "outer");
            FunctionDeclaration L0 (ident "f")
              [AssignmentPattern L0 (ident "a") (call (ident "t") [ident "X"])]
              (BlockStatement L0
                 [ constDecl "X" (str "body"); stmt (call (ident "t") [ident "X"]) ]) ])
    {[ "t" := "ns" ]}
  = ["ns.outer"; "ns.body"].
Proof. reflexivity. Qed.

End Scopes.

(** ** The usage report *)




(** * The further properties on the example programs *)

(** [a4] reaches ['x'] through five aliases. *)
Lemma alias_chain_resolves_witness :
  chainString (programScope chain_ast) 5 (ident "a4") = Some "x" /\
  foldConstant exampleParse (Some (ident "a4")) (programScope chain_ast) None 0
  = resolved (VString "x").
Proof.
  split; [reflexivity|].
  apply (alias_chain_resolves exampleParse (programScope chain_ast) None 5
           (ident "a4") 0 "x"); [reflexivity | lia].
Defined.

(** [a2] resolves at depth 2, where the literal is reached at depth 5, and so
    at depth 0. *)
Lemma resolved_string_at_smaller_depth_witness :
  foldConstant exampleParse (Some (ident "a2")) (programScope chain_ast) None 2
  = resolved (VString "x") /\
  foldConstant exampleParse (Some (ident "a2")) (programScope chain_ast) None 0
  = resolved (VString "x").
Proof.
  split; [reflexivity|].
  apply (resolved_string_at_smaller_depth exampleParse (Some (ident "a2"))
           (programScope chain_ast) None 2 0 "x"); [lia | reflexivity].
Defined.

Lemma string_array_complete_witness :
  foldConstant exampleParse (Some (strings ["a"; "b"])) [] None 0
  = resolved (VStrings ["a"; "b"]).
Proof.
  apply (proj2 (string_array_complete exampleParse L0 (Some ∘ str <$> ["a"; "b"])
                  [] None 0 ["a"; "b"] (Nat.le_0_l 5))).
  split; [discriminate | reflexivity].
Defined.

(** [[{ label: 'nav.basic', __proto__: 'x' }, { label: missing }]] folds to
    a record with the one entry [label] and an empty record. *)
Lemma record_array_complete_witness :
  foldConstant exampleParse
    (Some (ArrayExpression L0
             [ Some (ObjectExpression L0
                       [ ObjectProperty L0 (ident "label") (str "nav.basic");
                         ObjectProperty L0 (ident "__proto__") (str "x") ]);
               Some (ObjectExpression L0
                       [ ObjectProperty L0 (ident "label") (ident "missing") ]) ]))
    [] None 0
  = resolved (VRecords [{[ "label" := "nav.basic" ]}; ∅]) /\
  exists propss,
    propss <> [] /\
    Forall2 (fun properties (record : gmap string string) =>
               forall k,
                 record !! k
                 = recordEntry
                     (propertyStrings
                        (fun v => resolvedString (foldConstant exampleParse (Some v) [] None 1))
                        properties) k)
      propss [{[ "label" := "nav.basic" ]}; ∅].
Proof.
  split; [vm_compute; reflexivity|].
  destruct (proj1 (record_array_complete exampleParse L0
                     [ Some (ObjectExpression L0
                               [ ObjectProperty L0 (ident "label") (str "nav.basic");
                                 ObjectProperty L0 (ident "__proto__") (str "x") ]);
                       Some (ObjectExpression L0
                               [ ObjectProperty L0 (ident "label") (ident "missing") ]) ]
                     [] None 0 [{[ "label" := "nav.basic" ]}; ∅] (Nat.le_0_l 5)))
    as (propss & _ & Hne & Hrecords).
  - vm_compute. reflexivity.
  - exists propss. split; [exact Hne | exact Hrecords].
Defined.

(** The template [`${a}${b}`] under [const a = 'scope'; const b = '.sub']. *)
Lemma template_literal_text_witness :
  foldConstant exampleParse
    (Some (TemplateLiteral L0 [Some ""; Some ""; Some ""] [ident "a"; ident "b"]))
    (programScope concat_ast) None 0
  = resolved (VString "scope.sub").
Proof.
  refine (proj1 (template_literal_text exampleParse L0 [Some ""; Some ""; Some ""]
                   [ident "a"; ident "b"] (programScope concat_ast) None 0
                   (Nat.le_0_l 5) _) ["scope"; ".sub"] _).
  - discriminate.
  - repeat constructor.
Defined.

(** The binding of [const t = useTranslations(a6)], whose argument lies
    beyond the depth bound, is reported as dynamic with its placeholder. *)
Lemma accessor_binding_states_witness :
  exists r,
    analyzeUseTranslations exampleParse (fun f => f) chain_source (Some "page.tsx") None
    = [r] /\
    UseTranslationsAnalysis.isDynamic r = true /\
    UseTranslationsAnalysis.namespace r = None /\
    UseTranslationsAnalysis.dynamicPlaceholder r = Some "<dynamic:page.tsx:L0>".
Proof.
  eexists. split; [vm_compute; reflexivity|].
  destruct (accessor_binding_states exampleParse (fun f => f) chain_source
              (Some "page.tsx") None
              (UseTranslationsAnalysis.mk "t" None true (Some "<dynamic:page.tsx:L0>") L0))
    as [[Hdyn _]|(Hdyn & Hns & _)].
  - vm_compute. apply list_elem_of_here.
  - discriminate Hdyn.
  - split; [exact Hdyn|]. split; [exact Hns | reflexivity].
Defined.

(** The template [`${a4}`] resolves in the second pass of the namespace
    resolution, through the five aliases of [a4]. *)
Lemma template_namespace_second_pass_witness :
  resolveNamespaceFromCall exampleParse
    (CallExpression L0 (ident "useTranslations")
       [TemplateLiteral L0 [Some ""; Some ""] [ident "a4"]])
    (programScope chain_ast) None "page.tsx" 1
  = NamespaceResolution.mk (Some "x") false None.
Proof.
  apply (template_namespace_second_pass exampleParse L0 L0 (ident "useTranslations")
           [Some ""; Some ""] (ident "a4") [] [] (programScope chain_ast) None
           "page.tsx" 1 [""; "x"; ""]).
  reflexivity.
Defined.

Lemma emitted_key_is_qualified_witness :
  exists ak ns local,
    analyzeTranslationUsages exampleParse login_source {[ "t" := "auth" ]} None = [ak] /\
    AnalyzedKey.namespace ak = Some ns /\
    AnalyzedKey.key ak = qualified ns local /\
    AnalyzedKey.variableName ak <> "".
Proof.
  destruct (emitted_key_is_qualified exampleParse login_source {[ "t" := "auth" ]} None
              (AnalyzedKey.mk "auth.login.title" 37 50 true "t" (Some "auth")))
    as (ns & local & H).
  - vm_compute. apply list_elem_of_here.
  - eexists _, ns, local. split; [vm_compute; reflexivity | exact H].
Defined.

(** The lookup call [t(section.label)] of the sections program, as the
    traversal reaches it; and what the same call emits for [section.toString],
    a member every object inherits. *)
Lemma object_map_iteration_keys_witness :
  exists p bp,
    traverse sections_ast isCallExpression !! 1 = Some p /\
    path_node p
    = CallExpression (at_ 142 158) (Identifier (at_ 142 143) "t")
        [ MemberExpression (at_ 144 157) (Identifier (at_ 144 151) "section")
            (Identifier (at_ 152 157) "label") ] /\
    getBinding (path_scope p) "section" = Some bp /\
    mapCallObject bp = Some (Identifier (at_ 116 124) "SECTIONS") /\
    boundRecordArray (path_scope p) "SECTIONS"
    = Some [ {[ "id" := "section-basic"; "label" := "nav.basic" ]};
             {[ "id" := "section-groupbuy"; "label" := "nav.group_buy" ]} ] /\
    visitCallExpression furtherParse {[ "t" := "common" ]} None p
    = [ AnalyzedKey.mk "common.nav.basic" 144 157 false "t" (Some "common");
        AnalyzedKey.mk "common.nav.group_buy" 144 157 false "t" (Some "common") ] /\
    visitCallExpression furtherParse {[ "t" := "common" ]} None
      (mkNodePath
         (CallExpression (at_ 142 158) (Identifier (at_ 142 143) "t")
            [ MemberExpression (at_ 144 157) (Identifier (at_ 144 151) "section")
                (Identifier (at_ 152 157) "toString") ])
         (path_parent p) (path_scope p))
    = [ AnalyzedKey.mk "common.function toString() { [native code] }" 144 157 false "t"
          (Some "common");
        AnalyzedKey.mk "common.function toString() { [native code] }" 144 157 false "t"
          (Some "common") ].
Proof.
  eexists _, _. split; [vm_compute; reflexivity|].
  split; [reflexivity|]. split; [vm_compute; reflexivity|].
  split; [reflexivity|]. split; [vm_compute; reflexivity|].
  split.
  - refine (eq_trans
              (proj1 (object_map_iteration_keys furtherParse {[ "t" := "common" ]} None
                        (at_ 142 158) (at_ 144 157) (at_ 144 151) (at_ 152 157)
                        (at_ 116 124) (Identifier (at_ 142 143) "t")
                        "t" "section" "label" "SECTIONS" "common"
                        [] _ _ _ _ _ _ _ _ _ _) _) _).
    + reflexivity.
    + reflexivity.
    + discriminate.
    + vm_compute; reflexivity.
    + reflexivity.
    + vm_compute; reflexivity.
    + apply (bool_decide_unpack _). vm_compute. exact I.
    + vm_compute; reflexivity.
  - refine (eq_trans
              (proj2 (object_map_iteration_keys furtherParse {[ "t" := "common" ]} None
                        (at_ 142 158) (at_ 144 157) (at_ 144 151) (at_ 152 157)
                        (at_ 116 124) (Identifier (at_ 142 143) "t")
                        "t" "section" "toString" "SECTIONS" "common"
                        [] _ _ _ _ _ _ _ _ _ _)
                 "function toString() { [native code] }" _ _ _) _).
    + reflexivity.
    + reflexivity.
    + discriminate.
    + vm_compute; reflexivity.
    + reflexivity.
    + vm_compute; reflexivity.
    + apply (bool_decide_unpack _). vm_compute. exact I.
    + repeat constructor.
    + discriminate.
    + vm_compute; reflexivity.
Defined.

Lemma rewriteKeys_strips_namespace_witness :
  rewriteKeys "auth.login.title" (Some "auth") = "login.title".
Proof.
  apply (rewriteKeys_strips_namespace "auth" "login.title"). discriminate.
Defined.

Lemma refactorTemplates_trailing_keys_witness :
  refactorTemplates "one.two.three"
  = [ "{t('three')}"; "{t('two.three')}"; "{t('one.two.three')}";
      "t('three')"; "t('two.three')"; "t('one.two.three')" ] /\
  exists pre cur,
    "one.two.three" = pre +:+ cur /\
    ("t('two.three')" = "{t('" +:+ cur +:+ "')}" \/ "t('two.three')" = "t('" +:+ cur +:+ "')").
Proof.
  split; [reflexivity|].
  apply (proj2 (proj2 (proj2 (refactorTemplates_trailing_keys "one.two.three")))).
  vm_compute. do 4 apply list_elem_of_further. apply list_elem_of_here.
Defined.

(** The ranges of the login page are the positions of its one key. *)
Lemma scope_ranges_of_detected_keys_witness :
  getScopeRange exampleParse (fun f => f) (fun _ => []) login_source "page.tsx"
    exampleImporter
  = [ScopeRange.mk 37 50 "auth"].
Proof.
  refine (eq_trans
            (scope_ranges_of_detected_keys exampleParse (fun f => f) (fun _ => [])
               login_source "page.tsx" exampleImporter _ _) _).
  - vm_compute. repeat constructor.
  - intros Hempty. apply (f_equal (fun m : gmap string string => m !! "t")) in Hempty.
    vm_compute in Hempty. discriminate Hempty.
  - vm_compute. reflexivity.
Defined.

(** [./constants] is served from [/app/constants.ts]. *)
Lemma importer_reads_existing_files_witness :
  createImporter exampleDirname examplePathResolve examplePathJoin exampleExistsSync
    exampleReadSync "/app/page.tsx" None "./constants" = Some constants_source /\
  exists path, exampleExistsSync path = true /\ exampleReadSync path = Some constants_source.
Proof.
  split; [reflexivity|].
  apply (importer_reads_existing_files exampleDirname examplePathResolve examplePathJoin
           exampleExistsSync exampleReadSync "/app/page.tsx" None "./constants"
           constants_source).
  reflexivity.
Defined.

(** [./lib] names a directory: it exists, reading it throws, and the index
    module inside it is not tried although it could be read. *)
Lemma importer_exact_path_is_final_witness :
  exampleReadSync "/app/lib/index.ts" = Some "export const A = 'a'" /\
  createImporter exampleDirname examplePathResolve examplePathJoin exampleExistsSync
    exampleReadSync "/app/page.tsx" None "./lib" = None.
Proof.
  split; [reflexivity|].
  refine (eq_trans
            (importer_exact_path_is_final exampleDirname examplePathResolve examplePathJoin
               exampleExistsSync exampleReadSync "/app/page.tsx" None "./lib" _ _) _);
    reflexivity.
Defined.

(** The aliases of the chain program fold the same with and without the
    resolver of the import example. *)
Lemma resolver_only_for_imports_witness :
  noImportBindings (programScope chain_ast) = true /\
  foldConstant exampleParse (Some (ident "a4")) (programScope chain_ast)
    (Some exampleImporter) 0
  = foldConstant exampleParse (Some (ident "a4")) (programScope chain_ast) None 0.
Proof.
  split; [vm_compute; reflexivity|].
  apply (resolver_only_for_imports exampleParse (Some (ident "a4"))
           (programScope chain_ast) (Some exampleImporter) None 0).
  vm_compute. reflexivity.
Defined.


Lemma detected_keys_are_prefixed_witness :
  detectKeys exampleParse (fun f => f) login_source "page.tsx" exampleImporter
  = [("auth.login.title", 37, 50, true)] /\
  exists ns local, ns <> "" /\ "auth.login.title" = ns +:+ "." +:+ local.
Proof.
  split; [vm_compute; reflexivity|].
  apply (detected_keys_are_prefixed exampleParse (fun f => f) login_source "page.tsx"
           exampleImporter ("auth.login.title", 37, 50, true)).
  vm_compute. apply list_elem_of_here.
Defined.

Lemma unparsable_document_witness :
  exampleParse "{ namespace: 'auth' " = Throws /\
  detectKeys exampleParse (fun f => f) "{ namespace: 'auth' " "page.tsx" exampleImporter
  = [] /\
  getScopeRange exampleParse (fun f => f) exampleNamespaceMatches "{ namespace: 'auth' "
    "page.tsx" exampleImporter
  = [ScopeRange.mk 2 20 "auth"].
Proof.
  split; [reflexivity|].
  apply (unparsable_document exampleParse (fun f => f) exampleNamespaceMatches
           "{ namespace: 'auth' " "page.tsx" exampleImporter).
  reflexivity.
Defined.

(** A's lookup in the shadowed program, as the traversal reaches it: the map
    holds C's namespace for [t]. *)
Lemma own_declaration_namespace_witness :
  exists p,
    traverse shadowed_ast isCallExpression !! 1 = Some p /\
    visitCallExpression furtherParse {[ "t" := "third" ]} None p
    = [AnalyzedKey.mk "first.k1" 65 69 true "t" (Some "first")].
Proof.
  eexists. split; [vm_compute; reflexivity|].
  refine (own_declaration_namespace furtherParse {[ "t" := "third" ]} None _ "t" _
            (at_ 27 61) (Identifier (at_ 27 28) "t") _ (at_ 37 61) (at_ 53 60)
            (Identifier (at_ 37 52) "getTranslations") "first" [] "getTranslations"
            (at_ 63 70) (at_ 63 64) (at_ 65 69) "k1" [] _ _ _ _ _ _ _ _).
  - discriminate.
  - vm_compute. reflexivity.
  - reflexivity.
  - right. exists (at_ 31 61). reflexivity.
  - left. exists (at_ 37 52). reflexivity.
  - right. reflexivity.
  - discriminate.
Defined.

(** [CATEGORIES] of the import example folds to the array its module
    exports under that name. *)
Lemma named_import_resolution_witness :
  namedInits "CATEGORIES" (program_body constants_ast)
  = [Some (strings ["electronics"; "books"])] /\
  foldConstant exampleParse (Some (ident "CATEGORIES")) (programScope categories_ast)
    (Some exampleImporter) 0
  = resolved (VStrings ["electronics"; "books"]).
Proof.
  split; [reflexivity|].
  refine (eq_trans
            (named_import_resolution exampleParse (programScope categories_ast)
               exampleImporter 0 L0 "CATEGORIES" _ L0 L0 "CATEGORIES" (ident "CATEGORIES")
               L0 [ImportSpecifier L0 (ident "CATEGORIES") (ident "CATEGORIES")]
               "./constants" _ constants_source L0 (program_body constants_ast)
               _ _ _ _ _ _ _ _ _) _).
  - lia.
  - vm_compute. reflexivity.
  - reflexivity.
  - reflexivity.
  - reflexivity.
  - reflexivity.
  - discriminate.
  - reflexivity.
  - reflexivity.
  - vm_compute. reflexivity.
Defined.

(** The key [a] of the lookup call [t(i)] in
    [const ITEMS = ['a','b']; ITEMS.map(i => t(i))] comes from the iteration
    over [ITEMS]: [i] does not fold to a string. *)
Lemma iterated_key_origin_witness :
  exists p,
    traverse (items_ast ["a"; "b"]) isCallExpression !! 1 = Some p /\
    "a" ∈ keysToEmit exampleParse (path_scope p) None (ident "i") /\
    foldConstant exampleParse (Some (ident "i")) (path_scope p) None 0 = dynamic /\
    mapCallback (path_scope p) "i".
Proof.
  eexists. split; [vm_compute; reflexivity|].
  assert ("a" ∈ keysToEmit exampleParse
                   (path_scope
                      (default (mkNodePath (ident "i") None [])
                         (traverse (items_ast ["a"; "b"]) isCallExpression !! 1)))
                   None (ident "i")) as Hin
    by (vm_compute; apply list_elem_of_here).
  split; [exact Hin|]. split; [vm_compute; reflexivity|].
  destruct (iterated_key_origin exampleParse _ None (ident "i") "a" Hin)
    as [Hfold | [(l & name & Heq & Hmap) | (l & lo & name & lp & prop & Heq & _)]].
  - vm_compute in Hfold. discriminate Hfold.
  - injection Heq as _ <-. exact Hmap.
  - discriminate Heq.
Defined.
